(** * PushoverNotifications: a shallow embedding of [pushoverNotifications.js]

    The script polls a list of channel pages, compares the title of the newest
    upload with the title kept in a per-channel file and, when they differ,
    overwrites the file and posts a notification.

    Layout of the development:
    - [JS]: JavaScript strings as sequences of UTF-16 code units, with the
      string primitives the script calls ([trim], [split], [replace] with a
      character class, [toLowerCase]);
    - the program monad [Prog]: a world (files and a chronological trace of
      effects), exceptions, and [process.exit];
    - the functions of the script, in source order;
    - the properties.

    One poll cycle is modelled on its own; the timer that starts the cycles,
    and cycles that overlap, are outside the model. *)

From Stdlib Require Import NArith ZArith Ascii String Lia.
From stdpp Require Import gmap strings list fin_maps.

Local Open Scope N_scope.

(** ** JavaScript strings *)

Module JS.

(** A JavaScript string is a sequence of 16-bit code units. *)
Abbreviation jsstring := (list N).

(** String literals of the source are written [str "..."]. *)
Fixpoint str (s : string) : jsstring :=
  match s with
  | EmptyString => []
  | String a rest => N_of_ascii a :: str rest
  end.

(** Truthiness of a string value: only the empty string is falsy. *)
Definition truthy (s : jsstring) : bool :=
  match s with [] => false | _ :: _ => true end.

(** *** [String.prototype.trim]

    ECMAScript strips the code units of the WhiteSpace and LineTerminator
    productions: TAB, VT, FF, SP, NBSP, ZWNBSP, the Unicode space separators,
    LF, CR, LS and PS. *)
Definition is_whitespace (c : N) : bool :=
  (c =? 0x09) || (c =? 0x0A) || (c =? 0x0B) || (c =? 0x0C) || (c =? 0x0D)
  || (c =? 0x20) || (c =? 0xA0) || (c =? 0x1680)
  || ((0x2000 <=? c) && (c <=? 0x200A))
  || (c =? 0x2028) || (c =? 0x2029) || (c =? 0x202F) || (c =? 0x205F)
  || (c =? 0x3000) || (c =? 0xFEFF).

Fixpoint trimStart (s : jsstring) : jsstring :=
  match s with
  | [] => []
  | c :: rest => if is_whitespace c then trimStart rest else s
  end.

Definition trimEnd (s : jsstring) : jsstring := rev (trimStart (rev s)).

Definition trim (s : jsstring) : jsstring := trimEnd (trimStart s).

(** *** UTF-8

    Encoding a string as UTF-8 pairs a high surrogate with the low surrogate
    that follows it and writes U+FFFD for every surrogate that stands alone.
    [toWellFormed] is the string that the encoding decodes to ([String
    .prototype.toWellFormed]), [utf8_length] the number of bytes of the
    encoding. *)
Definition is_high_surrogate (c : N) : bool := (0xD800 <=? c) && (c <=? 0xDBFF).

Definition is_low_surrogate (c : N) : bool := (0xDC00 <=? c) && (c <=? 0xDFFF).

Fixpoint toWellFormed (s : jsstring) : jsstring :=
  match s with
  | [] => []
  | c :: rest =>
      if is_high_surrogate c then
        match rest with
        | d :: rest' =>
            if is_low_surrogate d then c :: d :: toWellFormed rest'
            else 0xFFFD :: toWellFormed rest
        | [] => [0xFFFD]
        end
      else if is_low_surrogate c then 0xFFFD :: toWellFormed rest
      else c :: toWellFormed rest
  end.

Fixpoint utf8_length (s : jsstring) : N :=
  match s with
  | [] => 0
  | c :: rest =>
      if c <? 0x80 then 1 + utf8_length rest
      else if c <? 0x800 then 2 + utf8_length rest
      else if is_high_surrogate c then
        match rest with
        | d :: rest' =>
            if is_low_surrogate d then 4 + utf8_length rest'
            else 3 + utf8_length rest
        | [] => 3
        end
      else 3 + utf8_length rest
  end.

(** *** [String.prototype.split] with a one-character separator

    The separators of the script are [","], ["@"] and ["/"]. The result is
    never empty: a string without separator yields the one-element array. *)
Fixpoint split (sep : N) (s : jsstring) : list jsstring :=
  match s with
  | [] => [[]]
  | c :: rest =>
      if c =? sep then [] :: split sep rest
      else match split sep rest with
           | piece :: pieces => (c :: piece) :: pieces
           | [] => [[c]]
           end
  end.

(** *** Case mapping

    On ASCII the case mappings are the familiar ones. Outside ASCII they are
    given by the Unicode tables built into the engine; these are not part of
    the script and are taken as a parameter. *)
Definition ascii_upper (c : N) : N :=
  if (0x61 <=? c) && (c <=? 0x7A) then c - 0x20 else c.

Definition ascii_lower (c : N) : N :=
  if (0x41 <=? c) && (c <=? 0x5A) then c + 0x20 else c.

Record Casing := {
  (** upper-case mapping of a single code unit at or above 128; it may expand
      to several code units *)
  unicode_toUpperCase : N -> jsstring;
  (** [toLowerCase] of a string that holds a code unit at or above 128 *)
  unicode_toLowerCase : jsstring -> jsstring
}.

Section WithCasing.
Variable U : Casing.

Definition toUpperCase_unit (ch : N) : jsstring :=
  if ch <? 128 then [ascii_upper ch] else unicode_toUpperCase U ch.

Definition toLowerCase (s : jsstring) : jsstring :=
  if forallb (fun c => c <? 128) s then map ascii_lower s
  else unicode_toLowerCase U s.

(** *** Regular expressions: one character class, flags [g] and [i]

    [Canonicalize] is the abstract operation of the ECMAScript specification
    for a pattern with the [i] flag and without the [u] flag: the code unit is
    upper-cased, unless that gives several code units or maps a non-ASCII code
    unit into ASCII. *)
Definition Canonicalize (ch : N) : N :=
  match toUpperCase_unit ch with
  | [cu] => if (128 <=? ch) && (cu <? 128) then ch else cu
  | _ => ch
  end.

(** A class [A] matches [ch] when some member of [A] canonicalizes like [ch];
    [invert] is the leading [^]. *)
Definition CharacterSetMatcher (A : list N) (invert : bool) (ch : N) : bool :=
  let found := existsb (fun a => Canonicalize a =? Canonicalize ch) A in
  if invert then negb found else found.

(** The members of a class range [lo-hi]. *)
Definition class_range (lo hi : N) : list N :=
  map (fun i => lo + N.of_nat i) (seq 0 (N.to_nat (hi + 1 - lo))).

(** [s.replace(/[...]/g, replacement)] for a pattern that is one class atom:
    every match is one code unit long, so the scan is unit by unit. The
    replacement holds no [$], it is inserted as it is. *)
Fixpoint replace_class (matcher : N -> bool) (replacement s : jsstring)
  : jsstring :=
  match s with
  | [] => []
  | ch :: rest =>
      (if matcher ch then replacement else [ch])
        ++ replace_class matcher replacement rest
  end.

End WithCasing.

End JS.

Import JS.

(** ** [getLatestTitleFileName] *)

Section FileName.
Variable U : Casing.

(** The class [[a-z0-9]] of the pattern [/[^a-z0-9]/gi]. *)
Definition class_a_z_0_9 : list N :=
  class_range 0x61 0x7A ++ class_range 0x30 0x39.

Definition getLatestTitleFileName (channelUrl : jsstring) : jsstring :=
  let safeName :=
    toLowerCase U
      (replace_class (CharacterSetMatcher U class_a_z_0_9 true) (str "_")
         channelUrl) in
  safeName ++ str "_latest_title.txt".

End FileName.

(** ** Values of the script *)

(** What a rejected promise carries: [error.message] and, for an HTTP error
    answer, the JSON text of [error.response.data]. *)
Record Error := {
  message : jsstring;
  response_data : option jsstring
}.

(** The anchor element that [document.querySelector] finds in the page. *)
Record Element := {
  textContent : jsstring;
  href : jsstring
}.

(** The observed item, [{ title, link }]. *)
Record Video := {
  title : jsstring;
  link : jsstring
}.

(** The body of the notification request. [token] and [user] come from the
    process environment and are [undefined] when the variable is unset. *)
Module Payload.
Record t := {
  token : option jsstring;
  user : option jsstring;
  message : jsstring;
  title : jsstring;
  url : jsstring;
  url_title : jsstring;
  priority : Z;
  sound : jsstring;
  retry : Z;
  expire : Z
}.
End Payload.

(** ** The outside world

    Every awaited call into puppeteer or axios is a [Request]; the environment
    answers it by resolving with a value of type [Answer] or by rejecting.
    [fs_writeFileSync] asks the file system whether it lets a write through
    (permissions, free space, the kind of the path): the environment resolves
    it, or rejects it with the error that [fs.writeFileSync] then throws. *)
Inductive Request :=
| puppeteer_launch
| browser_newPage
| page_goto (url : jsstring)
| page_scrollBy (x y : Z)
| page_query (selector : jsstring)
| page_click (selector : jsstring)
| page_querySelector (selector : jsstring)
| browser_close
| axios_post (endpoint : jsstring) (payload : Payload.t)
| fs_writeFileSync (filename data : jsstring).

Definition Answer (r : Request) : Type :=
  match r with
  | page_query _ => bool
  | page_querySelector _ => option Element
  | _ => unit
  end.

Inductive Reply (T : Type) :=
| Resolve (v : T)
| Reject (e : Error).
Arguments Resolve {T} v.
Arguments Reject {T} e.

(** The observable effects, in the order in which they happen. *)
Inductive Event :=
| EvLog (msg : jsstring)
| EvCall (r : Request)
| EvSleep (ms : Z)
| EvWrite (filename contents : jsstring)
| EvSpawn
| EvExit (code : Z).

(** The environment is any function from the history so far and the request
    to a reply. *)
Definition Host := list Event -> forall r : Request, Reply (Answer r).

(** The state of the run: the files of the working directory and the trace
    of effects. The script writes and reads its files as UTF-8; a file is
    kept as the text that its bytes decode to. *)
Record World := {
  files : gmap jsstring jsstring;
  trace : list Event
}.

Definition record (ev : Event) (w : World) : World :=
  {| files := files w; trace := trace w ++ [ev] |}.

(** ** The program monad *)

Inductive Outcome (A : Type) :=
| Normal (a : A)
| Throw (e : Error)
| Exited (code : Z).
Arguments Normal {A} a.
Arguments Throw {A} e.
Arguments Exited {A} code.

Definition Prog (A : Type) : Type := World -> Outcome A * World.

#[global] Instance Prog_ret : MRet Prog := fun A a w => (Normal a, w).

#[global] Instance Prog_bind : MBind Prog := fun A B k m w =>
  match m w with
  | (Normal a, w') => k a w'
  | (Throw e, w') => (Throw e, w')
  | (Exited code, w') => (Exited code, w')
  end.

(** [try { body } catch (error) { handler }]: an exit is not catchable. *)
Definition try_catch {A} (body : Prog A) (handler : Error -> Prog A) : Prog A :=
  fun w =>
    match body w with
    | (Throw e, w') => handler e w'
    | other => other
    end.

(** Runs [body] and hands its exception, if any, back as a value. *)
Definition attempt {A} (body : Prog A) : Prog (Error + A) :=
  try_catch (a ← body; mret (inr a)) (fun e => mret (inl e)).

Definition emit (ev : Event) : Prog unit := fun w => (Normal tt, record ev w).

(** [for (const x of xs) { await body(x) }] *)
Fixpoint for_of {A} (xs : list A) (body : A -> Prog unit) : Prog unit :=
  match xs with
  | [] => mret tt
  | x :: rest => body x;; for_of rest body
  end.

(** [await new Promise(r => setTimeout(r, ms))] *)
Definition sleep (ms : Z) : Prog unit := emit (EvSleep ms).

(** [process.exit(code)] *)
Definition process_exit (code : Z) : Prog unit :=
  fun w => (Exited code, record (EvExit code) w).

(** [spawn(process.argv[0], process.argv.slice(1), { stdio: 'inherit' })] *)
Definition spawn_self : Prog unit := emit EvSpawn.

(** *** The [fs] module

    A read fails only when the file is missing. A write fails when a
    component of the path is longer than [NAME_MAX] bytes, and whenever the
    environment rejects it. *)

Definition existsSync (filename : jsstring) : Prog bool :=
  fun w => (Normal (bool_decide (is_Some (files w !! filename))), w).

Definition ENOENT : Error :=
  {| message := str "ENOENT: no such file or directory"; response_data := None |}.

Definition readFileSync (filename : jsstring) : Prog jsstring :=
  fun w =>
    match files w !! filename with
    | Some contents => (Normal contents, w)
    | None => (Throw ENOENT, w)
    end.

Definition NAME_MAX : N := 255.

Definition ENAMETOOLONG : Error :=
  {| message := str "ENAMETOOLONG: name too long"; response_data := None |}.

Definition name_too_long (filename : jsstring) : bool :=
  existsb (fun component => NAME_MAX <? utf8_length component)
    (split 0x2F filename).

(** [fs.writeFileSync(filename, data, "utf-8")]: the file then holds the
    UTF-8 encoding of [data], which reads back as [toWellFormed data]. The
    trace keeps the arguments of a write that succeeded. *)
Definition writeFileSync (host : Host) (filename data : jsstring) : Prog unit :=
  fun w =>
    if name_too_long filename then (Throw ENAMETOOLONG, w)
    else
      match host (trace w) (fs_writeFileSync filename data) with
      | Resolve _ =>
          (Normal tt,
           {| files := <[filename := toWellFormed data]> (files w);
              trace := trace w ++ [EvWrite filename data] |})
      | Reject e => (Throw e, w)
      end.

(** ** The script *)

(** What [process.env] holds for the three variables the script reads. *)
Record ProcessEnv := {
  env_PUSHOVER_USER_KEY : option jsstring;
  env_PUSHOVER_API_TOKEN : option jsstring;
  env_YOUTUBE_CHANNEL_URLS : option jsstring
}.

Section Script.
Variable U : Casing.
Variable process_env : ProcessEnv.
Variable host : Host.

(** An awaited call: the request is recorded, and the reply of the
    environment resolves or rejects it. *)
Definition call (r : Request) : Prog (Answer r) :=
  fun w =>
    match host (trace w) r with
    | Resolve v => (Normal v, record (EvCall r) w)
    | Reject e => (Throw e, record (EvCall r) w)
    end.

Definition PUSHOVER_USER_KEY : option jsstring :=
  env_PUSHOVER_USER_KEY process_env.

Definition PUSHOVER_API_TOKEN : option jsstring :=
  env_PUSHOVER_API_TOKEN process_env.

Definition YOUTUBE_CHANNEL_URLS : list jsstring :=
  match env_YOUTUBE_CHANNEL_URLS process_env with
  | Some urls => if truthy urls then map trim (split 0x2C urls) else []
  | None => []
  end.

Definition CHECK_INTERVAL : Z := 60 * 1000.

(** The trace keeps the message; the time stamp in front of it is the
    clock's. *)
Definition logWithTimestamp (message : jsstring) : Prog unit :=
  emit (EvLog message).

Definition restartScript : Prog unit :=
  logWithTimestamp (str "Restarting script due to error...");;
  spawn_self;;
  process_exit 1.

(** The callback that [page.evaluate] runs in the page. *)
Definition extract_latest (sel : jsstring) : Prog (option Video) :=
  element ← call (page_querySelector sel);
  match element with
  | None => mret None
  | Some element =>
      let title := trim (textContent element) in
      let link := href element in
      mret (Some {| title := title; link := link |})
  end.

(** The [catch (error)] block of [getLatestVideo]; [browser] tells whether
    the variable [browser] has been assigned. The function then falls off its
    end, which yields [undefined], falsy like [null]. *)
Definition getLatestVideo_catch (browser : bool) (error : Error)
  : Prog (option Video) :=
  (if browser then call browser_close else mret tt);;
  logWithTimestamp
    (str "Unexpected error in getLatestVideo: " ++ message error);;
  restartScript;;
  mret None.

(** [browser] is declared before the [try] and assigned by the first
    statement inside it: an exception of [puppeteer.launch] reaches the handler
    with [browser] undefined, any later one with [browser] set. In the handler
    of the navigation, [browser] is set, so its [if (browser)] is taken. *)
Definition getLatestVideo (channelUrl : jsstring) : Prog (option Video) :=
  launched ← attempt (call puppeteer_launch);
  match launched with
  | inl error => getLatestVideo_catch false error
  | inr _ =>
      try_catch
        (call browser_newPage;;
         let selector :=
           str "ytd-rich-grid-media:first-child a#video-title-link" in
         logWithTimestamp (str "Navigating to channel page: " ++ channelUrl);;
         try_catch (call (page_goto channelUrl))
           (fun err =>
              logWithTimestamp
                (str "Error navigating to " ++ channelUrl ++ str ": "
                   ++ message err);;
              call browser_close;;
              restartScript);;
         call (page_scrollBy 0 200);;
         sleep 300;;
         let acceptButtonSelector :=
           str "button[aria-label=" ++ [0x22] ++ str "Accept all" ++ [0x22]
             ++ str "]" in
         acceptButton ← call (page_query acceptButtonSelector);
         (if (acceptButton : bool) then
            logWithTimestamp (str "Accepting cookies");;
            call (page_click acceptButtonSelector);;
            sleep 3000
          else mret tt);;
         latestVideo ← extract_latest selector;
         call browser_close;;
         match latestVideo with
         | None =>
             logWithTimestamp
               (str "Could not find the latest video for: " ++ channelUrl);;
             mret None
         | Some video => mret (Some video)
         end)
        (getLatestVideo_catch true)
  end.

Definition readLastTitle (filename : jsstring) : Prog (option jsstring) :=
  found ← existsSync filename;
  if negb found then mret None
  else
    contents ← readFileSync filename;
    let title := trim contents in
    mret (if truthy title then Some title else None).

Definition writeLastTitle (title filename : jsstring) : Prog unit :=
  writeFileSync host filename title.

Definition endpoint : jsstring := str "https://api.pushover.net/1/messages.json".

(** [channelUrl.split('@')[1]?.split('/')[0] || 'YouTube Channel'] *)
Definition channelName (channelUrl : jsstring) : jsstring :=
  match split 0x40 channelUrl !! 1%nat with
  | Some handle =>
      match split 0x2F handle !! 0%nat with
      | Some name => if truthy name then name else str "YouTube Channel"
      | None => str "YouTube Channel"
      end
  | None => str "YouTube Channel"
  end.

Definition pushoverPayload (video : Video) (channelUrl : jsstring)
  : Payload.t :=
  {| Payload.token := PUSHOVER_API_TOKEN;
     Payload.user := PUSHOVER_USER_KEY;
     Payload.message :=
       str "New video on " ++ channelName channelUrl ++ str ": "
         ++ title video;
     Payload.title := str "New YouTube Video";
     Payload.url := link video;
     Payload.url_title := str "Watch Video";
     Payload.priority := 2;
     Payload.sound := str "siren";
     Payload.retry := 30;
     Payload.expire := 3600 |}.

Definition sendPushoverNotification (video : Video) (channelUrl : jsstring)
  : Prog unit :=
  try_catch
    (call (axios_post endpoint (pushoverPayload video channelUrl));;
     logWithTimestamp (str "Pushover notification sent successfully!"))
    (fun error =>
       logWithTimestamp
         (str "Failed to send Pushover notification: "
            ++ match response_data error with
               | Some data => data
               | None => message error
               end)).

Definition checkForNewVideo (channelUrl : jsstring) : Prog unit :=
  logWithTimestamp (str "Checking for new video on: " ++ channelUrl);;
  latestVideo ← getLatestVideo channelUrl;
  match latestVideo with
  | None => logWithTimestamp (str "No video found for: " ++ channelUrl)
  | Some latestVideo =>
      let latestTitleFile := getLatestTitleFileName U channelUrl in
      storedTitle ← readLastTitle latestTitleFile;
      if bool_decide (storedTitle = Some (title latestVideo)) then
        logWithTimestamp
          (str "No new video. The latest video is still: "
             ++ default [] storedTitle)
      else
        logWithTimestamp (str "New video detected: " ++ title latestVideo);;
        writeLastTitle (title latestVideo) latestTitleFile;;
        sendPushoverNotification latestVideo channelUrl;;
        logWithTimestamp (str "Update complete.")
  end.

Definition checkForAllNewVideos : Prog unit :=
  logWithTimestamp (str "Checking all configured channels...");;
  for_of YOUTUBE_CHANNEL_URLS checkForNewVideo.

End Script.

(** * The vocabulary of the properties *)

(** The filename as the specification words it: every character that is not
    a letter or a digit becomes an underscore, the result is lower-cased, and
    the suffix is appended. Letters are the letters of the pattern, [a-z]
    and [A-Z]. *)
Definition is_digit (c : N) : bool := (0x30 <=? c) && (c <=? 0x39).

Definition is_letter (c : N) : bool :=
  ((0x61 <=? c) && (c <=? 0x7A)) || ((0x41 <=? c) && (c <=? 0x5A)).

Definition spec_fileName (channelUrl : jsstring) : jsstring :=
  map ascii_lower
    (map (fun c => if is_letter c || is_digit c then c else 0x5F) channelUrl)
  ++ str "_latest_title.txt".

(** The title that [readLastTitle] finds in a given state of the files. *)
Definition lastTitle (fs : gmap jsstring jsstring) (filename : jsstring)
  : option jsstring :=
  match fs !! filename with
  | Some contents =>
      if truthy (trim contents) then Some (trim contents) else None
  | None => None
  end.

(** The line that [sendPushoverNotification] logs after the post, by the
    reply to it. *)
Definition delivery_log (reply : Reply unit) : jsstring :=
  match reply with
  | Resolve _ => str "Pushover notification sent successfully!"
  | Reject error =>
      str "Failed to send Pushover notification: "
        ++ match response_data error with
           | Some data => data
           | None => message error
           end
  end.

(** The world in which a poll step writes the title of [video]: [w1] is the
    world that the fetch left. *)
Definition detecting (video : Video) (w1 : World) : World :=
  record (EvLog (str "New video detected: " ++ title video)) w1.

(** The world in which a poll step calls [getLatestVideo]. *)
Definition checking (url : jsstring) (w : World) : World :=
  record (EvLog (str "Checking for new video on: " ++ url)) w.

(** The events that a run from [w] to [w'] added to the trace. *)
Definition emitted (w w' : World) : list Event :=
  drop (length (trace w)) (trace w').

(** The effects the claims are about: a write to a file and the post of a
    notification. Every other event is [silent]. *)
Definition silent (ev : Event) : bool :=
  match ev with
  | EvWrite _ _ => false
  | EvCall (axios_post _ _) => false
  | _ => true
  end.

Definition effects (evs : list Event) : list Event :=
  List.filter (fun ev => negb (silent ev)) evs.

(** A computation is [quiet] when it leaves the files alone and adds only
    silent events. *)
Definition quiet {A} (m : Prog A) : Prop :=
  forall w, files (snd (m w)) = files w
    /\ exists evs, trace (snd (m w)) = trace w ++ evs
                   /\ forallb silent evs = true.

(** Every request among [evs], issued after the history [pre], was
    resolved. *)
Fixpoint all_resolved (host : Host) (pre evs : list Event) : Prop :=
  match evs with
  | [] => True
  | ev :: rest =>
      match ev with
      | EvCall r => exists v, host pre r = Resolve v
      | _ => True
      end
      /\ all_resolved host (pre ++ [ev]) rest
  end.

(** ** Concrete inputs *)

Definition identity_casing : Casing :=
  {| unicode_toUpperCase := fun c => [c]; unicode_toLowerCase := fun s => s |}.

Definition example_env (urls : option jsstring) : ProcessEnv :=
  {| env_PUSHOVER_USER_KEY := Some (str "user-key");
     env_PUSHOVER_API_TOKEN := Some (str "api-token");
     env_YOUTUBE_CHANNEL_URLS := urls |}.

Definition empty_world : World := {| files := ∅; trace := [] |}.

Definition example_url : jsstring := str "https://www.youtube.com/@NewsDesk".

Definition example_element : Element :=
  {| textContent := str "  Evening bulletin ";
     href := str "https://www.youtube.com/watch?v=abc" |}.

Definition example_video : Video :=
  {| title := str "Evening bulletin";
     link := str "https://www.youtube.com/watch?v=abc" |}.

(** A page whose newest upload has a title of spaces only. *)
Definition blank_element : Element :=
  {| textContent := str "   ";
     href := str "https://www.youtube.com/watch?v=abc" |}.

(** A page without cookie banner whose query for the newest upload is
    answered by [found], and a notification service that answers [posted]. *)
Definition example_host (found : option Element) (posted : Reply unit)
  : Host :=
  fun _ r =>
    match r return Reply (Answer r) with
    | page_query _ => Resolve false
    | page_querySelector _ => Resolve found
    | axios_post _ _ => posted
    | _ => Resolve tt
    end.


Definition page_failed : Error :=
  {| message := str "Target closed"; response_data := None |}.

Definition close_failed : Error :=
  {| message := str "Connection closed"; response_data := None |}.

(** The browser starts, opening a page is rejected, and closing the browser
    answers [closing]. *)
Definition host_page_fails (closing : Reply unit) : Host :=
  fun _ r =>
    match r return Reply (Answer r) with
    | browser_newPage => Reject page_failed
    | browser_close => closing
    | page_query _ => Resolve false
    | page_querySelector _ => Resolve None
    | _ => Resolve tt
    end.

Definition two_channels : ProcessEnv :=
  example_env
    (Some (str "https://www.youtube.com/@first,https://www.youtube.com/@second")).

(** The world in which the file of [example_url] holds [contents]. *)
Definition world_with_title (contents : jsstring) : World :=
  {| files := {[ getLatestTitleFileName identity_casing example_url := contents ]};
     trace := [] |}.

(** A channel URL of 325 code units: the name of its file is longer than the
    255 bytes that a file system allows. *)
Definition long_url : jsstring :=
  str "https://www.youtube.com/@" ++ repeat 0x61 300%nat.



(** ** The vocabulary of the further properties *)

(** The URLs that the page was sent to, in order. *)
Definition navigations (evs : list Event) : list jsstring :=
  flat_map
    (fun ev => match ev with EvCall (page_goto url) => [url] | _ => [] end)
    evs.

(** How many times the browser was asked to close. *)
Definition closes (evs : list Event) : nat :=
  length
    (List.filter
       (fun ev => match ev with EvCall browser_close => true | _ => false end)
       evs).

(** Whether a new copy of the process was spawned, and whether the process
    was left. *)
Definition spawned (evs : list Event) : bool :=
  existsb (fun ev => match ev with EvSpawn => true | _ => false end) evs.

Definition exited (evs : list Event) : bool :=
  existsb (fun ev => match ev with EvExit _ => true | _ => false end) evs.

(** The selector of the newest upload in [getLatestVideo]. *)
Definition video_selector : jsstring :=
  str "ytd-rich-grid-media:first-child a#video-title-link".

(** The write and the post of one detected change. *)
Definition change_effects (U : Casing) (process_env : ProcessEnv)
  (change : jsstring * Video) : list Event :=
  let (url, video) := change in
  [EvWrite (getLatestTitleFileName U url) (title video);
   EvCall (axios_post endpoint (pushoverPayload process_env video url))].

(** The files after the titles of the changes were written, in order, each
    in its UTF-8 encoding. *)
Definition apply_changes (U : Casing) (changes : list (jsstring * Video))
  (fs : gmap jsstring jsstring) : gmap jsstring jsstring :=
  foldl
    (fun fs change =>
       <[getLatestTitleFileName U (fst change)
           := toWellFormed (title (snd change))]> fs)
    fs changes.

(** What the later properties need to know of the events of a run, by its
    outcome. *)
Definition run_shape {A} (o : Outcome A) (evs : list Event) : Prop :=
  match o with
  | Normal _ => spawned evs = false /\ exited evs = false
  | Exited code => code = 1%Z /\ spawned evs = true /\ exited evs = true
  | Throw _ => spawned evs = false /\ exited evs = false
  end.


(** The part of a string before the first code unit that satisfies [stop],
    and the part after that code unit, if there is one. *)
Fixpoint take_until (stop : N -> bool) (s : jsstring) : jsstring :=
  match s with
  | [] => []
  | c :: rest => if stop c then [] else c :: take_until stop rest
  end.

Fixpoint after_first (stop : N -> bool) (s : jsstring) : option jsstring :=
  match s with
  | [] => None
  | c :: rest => if stop c then Some rest else after_first stop rest
  end.

(** The channel name as a reader of the URL sees it: the text between the
    first ["@"] and the next ["@"] or ["/"], and ["YouTube Channel"] when there
    is no ["@"] or nothing follows it. *)
Definition spec_channelName (channelUrl : jsstring) : jsstring :=
  match after_first (fun c => c =? 0x40) channelUrl with
  | Some rest =>
      match take_until (fun c => (c =? 0x40) || (c =? 0x2F)) rest with
      | [] => str "YouTube Channel"
      | name => name
      end
  | None => str "YouTube Channel"
  end.

(** [pieces.join(sep)] for a one-character separator. *)
Fixpoint join (sep : N) (pieces : list jsstring) : jsstring :=
  match pieces with
  | [] => []
  | [piece] => piece
  | piece :: rest => piece ++ sep :: join sep rest
  end.

(** What [getLatestTitleFileName] makes of one code unit of the URL. *)
Definition sanitize (c : N) : N :=
  ascii_lower (if is_letter c || is_digit c then c else 0x5F).

(** The code units a file name is made of: lower-case ASCII letters, digits,
    the underscore and the dot. *)
Definition fileName_unit (c : N) : bool :=
  ((0x61 <=? c) && (c <=? 0x7A)) || is_digit c || (c =? 0x5F) || (c =? 0x2E).

(** The newest upload of another channel. *)
Definition other_element : Element :=
  {| textContent := str "Morning show";
     href := str "https://www.youtube.com/watch?v=xyz" |}.

(** The changes that a run from [w] to [final] detected, in order: each is
    found by a step that starts after the one before it, on the files as the
    earlier changes left them; the fetch of the step returns the video, the
    title in the channel's file is another one, and the step completes with
    the new title written. *)
Fixpoint detected_changes (U : Casing) (process_env : ProcessEnv)
  (host : Host) (w : World) (changes : list (jsstring * Video))
  (final : World) : Prop :=
  match changes with
  | [] => trace w `prefix_of` trace final
  | (url, video) :: rest =>
      let file := getLatestTitleFileName U url in
      exists w0 w1 w2,
        trace w `prefix_of` trace w0
        /\ files w0 = files w
        /\ getLatestVideo host url (checking url w0) = (Normal (Some video), w1)
        /\ lastTitle (files w0) file <> Some (title video)
        /\ checkForNewVideo U process_env host url w0 = (Normal tt, w2)
        /\ files w2 = <[file := toWellFormed (title video)]> (files w)
        /\ detected_changes U process_env host w2 rest final
  end.

(** A page whose newest upload has a title that ends in a high surrogate
    without its low surrogate. *)
Definition broken_element : Element :=
  {| textContent := str "Live " ++ [0xD83D];
     href := str "https://www.youtube.com/watch?v=abc" |}.

(** * Properties *)

(** ** Strings *)

Section StringFacts.

Lemma trimStart_idempotent s : trimStart (trimStart s) = trimStart s.
Proof.
  induction s as [|c s IH]; simpl; [reflexivity|].
  destruct (is_whitespace c) eqn:Hc; [exact IH|].
  simpl. now rewrite Hc.
Qed.

(** [trimStart] either empties the string or stops at its first code unit
    that is not white space. *)
Lemma trimStart_head s c rest :
  trimStart s = c :: rest -> is_whitespace c = false.
Proof.
  induction s as [|d s IH]; simpl; [discriminate|].
  destruct (is_whitespace d) eqn:Hd; [exact IH|].
  intros [= -> _]. exact Hd.
Qed.

Lemma trimStart_fixed c s :
  is_whitespace c = false -> trimStart (c :: s) = c :: s.
Proof. intros H. simpl. now rewrite H. Qed.

(** A string that starts with a code unit that is not white space still
    starts with it after [trimEnd]. *)
Lemma trimEnd_cons_keep c s :
  is_whitespace c = false -> exists s', trimEnd (c :: s) = c :: s'.
Proof.
  intros Hc. unfold trimEnd. simpl rev.
  induction (rev s) as [|d r IH]; simpl.
  - rewrite Hc. simpl. now exists [].
  - destruct (is_whitespace d) eqn:Hd.
    + exact IH.
    + exists (rev (d :: r)).
      change (d :: r ++ [c]) with ((d :: r) ++ [c]).
      now rewrite rev_app_distr.
Qed.

Lemma trimEnd_idempotent s : trimEnd (trimEnd s) = trimEnd s.
Proof.
  unfold trimEnd. now rewrite rev_involutive, trimStart_idempotent.
Qed.

Lemma trimStart_trim s : trimStart (trim s) = trim s.
Proof.
  unfold trim. destruct (trimStart s) as [|c rest] eqn:Hs; [reflexivity|].
  destruct (trimEnd_cons_keep c rest (trimStart_head _ _ _ Hs)) as [s' ->].
  apply trimStart_fixed, (trimStart_head _ _ _ Hs).
Qed.

Lemma trim_idempotent s : trim (trim s) = trim s.
Proof.
  unfold trim at 1. rewrite trimStart_trim.
  unfold trim. apply trimEnd_idempotent.
Qed.

(** Trimming shortens a string or leaves it as it is. *)
Lemma trimStart_shorter s :
  trimStart s = s \/ (length (trimStart s) < length s)%nat.
Proof.
  induction s as [|c s IH]; [now left|]. cbn [trimStart].
  destruct (is_whitespace c); [|now left].
  right. cbn [length]. destruct IH as [->|IH]; lia.
Qed.

Lemma trimEnd_shorter s : trimEnd s = s \/ (length (trimEnd s) < length s)%nat.
Proof.
  unfold trimEnd. destruct (trimStart_shorter (rev s)) as [->|H].
  - left. apply rev_involutive.
  - right. rewrite length_rev in *. exact H.
Qed.

Lemma trim_shorter s : trim s = s \/ (length (trim s) < length s)%nat.
Proof.
  unfold trim. destruct (trimStart_shorter s) as [->|H].
  - apply trimEnd_shorter.
  - right. destruct (trimEnd_shorter (trimStart s)) as [->|H']; lia.
Qed.

(** [toWellFormed] replaces code units one for one. *)
Lemma length_toWellFormed s : length (toWellFormed s) = length s.
Proof.
  assert (H : forall n s, (length s <= n)%nat ->
                          length (toWellFormed s) = length s).
  { clear s. induction n as [|n IH]; intros [|c s] Hn;
      try reflexivity; cbn [length] in Hn; [lia|].
    cbn [toWellFormed].
    destruct (is_high_surrogate c).
    - destruct s as [|d s]; [reflexivity|].
      destruct (is_low_surrogate d); cbn [length] in *.
      + rewrite IH by lia. reflexivity.
      + rewrite (IH (d :: s)) by (cbn [length]; lia). reflexivity.
    - destruct (is_low_surrogate c); cbn [length]; rewrite IH by lia;
        reflexivity. }
  now apply (H (length s)).
Qed.

(** White space is no surrogate, so a string of white space is well
    formed. *)
Lemma whitespace_not_surrogate c :
  is_whitespace c = true ->
  is_high_surrogate c = false /\ is_low_surrogate c = false.
Proof.
  unfold is_whitespace, is_high_surrogate, is_low_surrogate.
  rewrite !orb_true_iff, !andb_true_iff, !N.eqb_eq, !N.leb_le.
  intros H. split; apply andb_false_iff; rewrite !N.leb_gt; lia.
Qed.

Lemma trimStart_nil s : trimStart s = [] -> Forall (fun c => is_whitespace c = true) s.
Proof.
  induction s as [|c s IH]; [constructor|]. cbn [trimStart].
  destruct (is_whitespace c) eqn:Hc; [|discriminate].
  intros H. constructor; auto.
Qed.

Lemma trim_nil_whitespace s :
  trim s = [] -> Forall (fun c => is_whitespace c = true) s.
Proof.
  unfold trim. intros H. apply trimStart_nil.
  destruct (trimStart s) as [|c rest] eqn:Hs; [reflexivity|].
  destruct (trimEnd_cons_keep c rest (trimStart_head _ _ _ Hs)) as [s' Hs'].
  congruence.
Qed.

Lemma toWellFormed_whitespace s :
  Forall (fun c => is_whitespace c = true) s -> toWellFormed s = s.
Proof.
  induction 1 as [|c s Hc _ IH]; [reflexivity|]. cbn [toWellFormed].
  destruct (whitespace_not_surrogate c Hc) as [-> ->]. now rewrite IH.
Qed.

Lemma truthy_false s : truthy s = false <-> s = [].
Proof. destruct s; simpl; split; congruence. Qed.

Lemma truthy_true s : truthy s = true <-> s <> [].
Proof. destruct s; simpl; split; congruence. Qed.

Lemma In_class_range lo hi a : In a (class_range lo hi) <-> lo <= a <= hi.
Proof.
  unfold class_range. rewrite in_map_iff. split.
  - intros (i & <- & Hi). apply in_seq in Hi. lia.
  - intros H. exists (N.to_nat (a - lo)). split; [lia|].
    apply in_seq. lia.
Qed.

End StringFacts.

(** ** The file name of a channel *)

(** Case analysis on the comparisons of code units in the goal. *)
Ltac split_comparisons :=
  repeat match goal with
    | |- context [?a <=? ?b] => destruct (N.leb_spec a b)
    | |- context [?a <? ?b] => destruct (N.ltb_spec a b)
    | |- context [?a =? ?b] => destruct (N.eqb_spec a b)
    end;
  simpl in *; intros; try reflexivity; try discriminate; try lia.

Section FileNameFacts.
Variable U : Casing.

Lemma Canonicalize_ascii ch : ch < 128 -> Canonicalize U ch = ascii_upper ch.
Proof.
  intros H. unfold Canonicalize, toUpperCase_unit.
  destruct (N.ltb_spec ch 128); [|lia].
  destruct (N.leb_spec 128 ch); [lia|reflexivity].
Qed.

(** The [i] flag never folds a code unit outside ASCII onto an ASCII one. *)
Lemma Canonicalize_nonascii ch : 128 <= ch -> 128 <= Canonicalize U ch.
Proof.
  intros H. unfold Canonicalize, toUpperCase_unit.
  destruct (N.ltb_spec ch 128); [lia|].
  destruct (unicode_toUpperCase U ch) as [|cu [|? ?]]; try assumption.
  destruct (N.leb_spec 128 ch); [|lia].
  destruct (N.ltb_spec cu 128); simpl; lia.
Qed.

Lemma ascii_upper_bound ch : ch < 128 -> ascii_upper ch < 128.
Proof. unfold ascii_upper. split_comparisons. Qed.

Lemma In_class_a_z_0_9 a :
  In a class_a_z_0_9 <-> 0x61 <= a <= 0x7A \/ 0x30 <= a <= 0x39.
Proof.
  unfold class_a_z_0_9. rewrite in_app_iff, !In_class_range. reflexivity.
Qed.

(** With the [i] flag the class [[a-z0-9]] holds exactly the ASCII letters
    of both cases and the digits. *)
Lemma class_found ch :
  existsb (fun a => Canonicalize U a =? Canonicalize U ch) class_a_z_0_9
  = is_letter ch || is_digit ch.
Proof.
  apply eq_true_iff_eq. rewrite existsb_exists. split.
  - intros (a & Ha & Heq). apply In_class_a_z_0_9 in Ha.
    apply N.eqb_eq in Heq.
    rewrite (Canonicalize_ascii a) in Heq by lia.
    destruct (N.lt_ge_cases ch 128) as [Hlt|Hge].
    + rewrite (Canonicalize_ascii ch Hlt) in Heq.
      revert Heq. unfold ascii_upper, is_letter, is_digit.
      destruct Ha as [Ha|Ha]; split_comparisons.
    + pose proof (Canonicalize_nonascii ch Hge) as Hc.
      assert (ascii_upper a < 128) by (apply ascii_upper_bound; lia). lia.
  - intros H.
    assert (Hlt : ch < 128).
    { revert H. unfold is_letter, is_digit. split_comparisons. }
    exists (ascii_lower ch). split.
    + apply In_class_a_z_0_9. revert H.
      unfold ascii_lower, is_letter, is_digit. split_comparisons.
    + apply N.eqb_eq. rewrite (Canonicalize_ascii ch Hlt).
      rewrite Canonicalize_ascii.
      * revert H. unfold ascii_lower, ascii_upper, is_letter, is_digit.
        split_comparisons.
      * revert H. unfold ascii_lower, is_letter, is_digit. split_comparisons.
Qed.

Lemma matcher_not_alphanumeric ch :
  CharacterSetMatcher U class_a_z_0_9 true ch
  = negb (is_letter ch || is_digit ch).
Proof. unfold CharacterSetMatcher. cbv zeta. now rewrite class_found. Qed.

Lemma replace_class_underscore url :
  replace_class (CharacterSetMatcher U class_a_z_0_9 true) (str "_") url
  = map (fun c => if is_letter c || is_digit c then c else 0x5F) url.
Proof.
  induction url as [|c url IH]; [reflexivity|].
  cbn [replace_class map]. rewrite IH, matcher_not_alphanumeric.
  now destruct (is_letter c || is_digit c).
Qed.

Lemma safeName_ascii url :
  forallb (fun c => c <? 128)
    (map (fun c => if is_letter c || is_digit c then c else 0x5F) url) = true.
Proof.
  induction url as [|c url IH]; simpl; [reflexivity|].
  rewrite IH, andb_true_r.
  unfold is_letter, is_digit. split_comparisons.
Qed.

End FileNameFacts.

(** ** The program monad *)

Section ProgFacts.
Context {A B : Type}.

Lemma bind_normal (m : Prog A) (k : A -> Prog B) w a w' :
  m w = (Normal a, w') -> (m ≫= k) w = k a w'.
Proof. intros H. unfold mbind, Prog_bind. now rewrite H. Qed.

Lemma bind_throw (m : Prog A) (k : A -> Prog B) w e w' :
  m w = (Throw e, w') -> (m ≫= k) w = (Throw e, w').
Proof. intros H. unfold mbind, Prog_bind. now rewrite H. Qed.

Lemma bind_exited (m : Prog A) (k : A -> Prog B) w code w' :
  m w = (Exited code, w') -> (m ≫= k) w = (Exited code, w').
Proof. intros H. unfold mbind, Prog_bind. now rewrite H. Qed.

Lemma try_catch_normal (m : Prog A) h w a w' :
  m w = (Normal a, w') -> try_catch m h w = (Normal a, w').
Proof. intros H. unfold try_catch. now rewrite H. Qed.

Lemma try_catch_throw (m : Prog A) h w e w' :
  m w = (Throw e, w') -> try_catch m h w = h e w'.
Proof. intros H. unfold try_catch. now rewrite H. Qed.

Lemma try_catch_exited (m : Prog A) h w code w' :
  m w = (Exited code, w') -> try_catch m h w = (Exited code, w').
Proof. intros H. unfold try_catch. now rewrite H. Qed.

End ProgFacts.

Lemma emitted_app w w' evs : trace w' = trace w ++ evs -> emitted w w' = evs.
Proof. intros H. unfold emitted. rewrite H. apply drop_app_length. Qed.

Lemma effects_app evs1 evs2 : effects (evs1 ++ evs2) = effects evs1 ++ effects evs2.
Proof. apply List.filter_app. Qed.

Lemma effects_silent evs : forallb silent evs = true -> effects evs = [].
Proof.
  induction evs as [|ev evs IH]; simpl; [reflexivity|].
  intros [Hev Hevs]%andb_prop. rewrite Hev. simpl. auto.
Qed.

Section Quiet.
Context {A B : Type}.

Lemma quiet_ret (a : A) : quiet (mret a).
Proof. intros w. split; [reflexivity|]. exists []. now rewrite app_nil_r. Qed.

Lemma quiet_emit ev : silent ev = true -> quiet (emit ev).
Proof.
  intros H w. split; [reflexivity|]. exists [ev]. simpl. now rewrite H.
Qed.

Lemma quiet_process_exit code : quiet (process_exit code).
Proof. intros w. split; [reflexivity|]. now exists [EvExit code]. Qed.

Lemma quiet_bind (m : Prog A) (k : A -> Prog B) :
  quiet m -> (forall a, quiet (k a)) -> quiet (m ≫= k).
Proof.
  intros Hm Hk w. unfold mbind, Prog_bind.
  destruct (Hm w) as (Hf & evs & Ht & Hs).
  destruct (m w) as [[a|e|code] w1]; simpl in *; eauto.
  destruct (Hk a w1) as (Hf' & evs' & Ht' & Hs').
  split; [congruence|]. exists (evs ++ evs').
  rewrite Ht', Ht, app_assoc, forallb_app, Hs, Hs'. auto.
Qed.

Lemma quiet_try_catch (m : Prog A) (h : Error -> Prog A) :
  quiet m -> (forall e, quiet (h e)) -> quiet (try_catch m h).
Proof.
  intros Hm Hh w. unfold try_catch.
  destruct (Hm w) as (Hf & evs & Ht & Hs).
  destruct (m w) as [[a|e|code] w1]; simpl in *; eauto.
  destruct (Hh e w1) as (Hf' & evs' & Ht' & Hs').
  split; [congruence|]. exists (evs ++ evs').
  rewrite Ht', Ht, app_assoc, forallb_app, Hs, Hs'. auto.
Qed.

End Quiet.

Lemma quiet_attempt {A} (m : Prog A) : quiet m -> quiet (attempt m).
Proof.
  intros Hm. apply quiet_try_catch.
  - apply quiet_bind; [exact Hm | intros; apply quiet_ret].
  - intros; apply quiet_ret.
Qed.

Lemma quiet_call host r :
  silent (EvCall r) = true -> quiet (call host r).
Proof.
  intros H w. unfold call.
  destruct (host (trace w) r); (split; [reflexivity|]);
    exists [EvCall r]; cbn [forallb]; now rewrite H.
Qed.

(** Decomposes a goal [quiet m] along the structure of [m]. *)
Ltac quiet_steps :=
  repeat first
    [ apply quiet_ret
    | apply quiet_process_exit
    | apply quiet_emit; reflexivity
    | match goal with
      | |- quiet (call ?h ?r) => exact (quiet_call h r eq_refl)
      end
    | apply quiet_attempt
    | apply quiet_bind; [|intros]
    | apply quiet_try_catch; [|intros]
    | match goal with
      | |- quiet (match ?x with _ => _ end) => destruct x
      end ].

Section ScriptFacts.
Variable U : Casing.
Variable process_env : ProcessEnv.
Variable host : Host.

Lemma restartScript_quiet : quiet restartScript.
Proof. unfold restartScript, logWithTimestamp, spawn_self. quiet_steps. Qed.

Lemma getLatestVideo_quiet url : quiet (getLatestVideo host url).
Proof.
  unfold getLatestVideo, getLatestVideo_catch, extract_latest,
    logWithTimestamp, sleep.
  quiet_steps; apply restartScript_quiet.
Qed.

End ScriptFacts.

(** ** Reading and writing the last title *)

Lemma readLastTitle_run filename w :
  readLastTitle filename w = (Normal (lastTitle (files w) filename), w).
Proof.
  unfold readLastTitle, lastTitle, existsSync, readFileSync, mbind, Prog_bind.
  destruct (files w !! filename) as [contents|] eqn:Hf.
  - rewrite bool_decide_eq_true_2 by eauto. simpl. now rewrite Hf.
  - rewrite bool_decide_eq_false_2 by (intros [? ?]; discriminate).
    reflexivity.
Qed.

(** A write either succeeds, and then the file holds the well-formed form
    of the title, or throws and leaves the world as it was. *)
Lemma writeLastTitle_run host title filename w :
  writeLastTitle host title filename w
  = (Normal tt,
     {| files := <[filename := toWellFormed title]> (files w);
        trace := trace w ++ [EvWrite filename title] |})
  \/ exists e, writeLastTitle host title filename w = (Throw e, w).
Proof.
  unfold writeLastTitle, writeFileSync.
  destruct (name_too_long filename); [right; eauto|].
  destruct (host (trace w) (fs_writeFileSync filename title)) as [[]|e];
    [left; reflexivity | right; eauto].
Qed.

Lemma writeLastTitle_Normal host title filename w :
  fst (writeLastTitle host title filename w) = Normal tt ->
  writeLastTitle host title filename w
  = (Normal tt,
     {| files := <[filename := toWellFormed title]> (files w);
        trace := trace w ++ [EvWrite filename title] |}).
Proof.
  intros H. destruct (writeLastTitle_run host title filename w) as [Hw|[e Hw]];
    [exact Hw|]. rewrite Hw in H. discriminate.
Qed.

Lemma writeLastTitle_not_Normal host title filename w :
  fst (writeLastTitle host title filename w) <> Normal tt ->
  exists e, writeLastTitle host title filename w = (Throw e, w).
Proof.
  intros H. destruct (writeLastTitle_run host title filename w) as [Hw|Hw];
    [|exact Hw]. rewrite Hw in H. now contradiction H.
Qed.

Lemma lastTitle_insert fs filename title :
  lastTitle (<[filename := title]> fs) filename
  = if truthy (trim title) then Some (trim title) else None.
Proof. unfold lastTitle. now rewrite lookup_insert_eq. Qed.

(** A title that [readLastTitle] returns is trimmed and not empty. *)
Lemma lastTitle_Some fs filename t :
  lastTitle fs filename = Some t -> trim t = t /\ t <> [].
Proof.
  unfold lastTitle. destruct (fs !! filename) as [c|]; [|discriminate].
  destruct (truthy (trim c)) eqn:Ht; [|discriminate].
  intros [= <-]. split; [apply trim_idempotent | now apply truthy_true].
Qed.

Lemma lastTitle_None fs filename :
  lastTitle fs filename = None
  <-> fs !! filename = None
      \/ exists contents, fs !! filename = Some contents /\ trim contents = [].
Proof.
  unfold lastTitle. destruct (fs !! filename) as [c|]; [|tauto].
  destruct (truthy (trim c)) eqn:Ht.
  - apply truthy_true in Ht. split; [discriminate|].
    intros [?|(c' & [= <-] & ?)]; [discriminate|contradiction].
  - apply truthy_false in Ht. split; [|reflexivity].
    intros _. right. eauto.
Qed.

(** ** Sending the notification *)

Section NotificationFacts.
Variable U : Casing.
Variable process_env : ProcessEnv.
Variable host : Host.

Lemma sendPushoverNotification_run video url w :
  let post := axios_post endpoint (pushoverPayload process_env video url) in
  sendPushoverNotification process_env host video url w
  = (Normal tt,
     {| files := files w;
        trace := trace w
                   ++ [EvCall post; EvLog (delivery_log (host (trace w) post))]
     |}).
Proof.
  intros post.
  unfold sendPushoverNotification, try_catch, mbind, Prog_bind, call,
    logWithTimestamp, emit, record. fold post.
  destruct (host (trace w) post) as [[]|error]; simpl;
    now rewrite <- app_assoc.
Qed.

(** The run of [checkForNewVideo], given what the fetch did and, on a
    detected change, what the write did. *)
Lemma checkForNewVideo_run url w :
  let w0 := record (EvLog (str "Checking for new video on: " ++ url)) w in
  let file := getLatestTitleFileName U url in
  checkForNewVideo U process_env host url w
  = match getLatestVideo host url w0 with
    | (Normal None, w1) =>
        (Normal tt, record (EvLog (str "No video found for: " ++ url)) w1)
    | (Normal (Some video), w1) =>
        if bool_decide (lastTitle (files w1) file = Some (title video)) then
          (Normal tt,
           record
             (EvLog (str "No new video. The latest video is still: "
                       ++ title video)) w1)
        else
          let post := axios_post endpoint (pushoverPayload process_env video url) in
          let written :=
            trace w1 ++ [EvLog (str "New video detected: " ++ title video);
                         EvWrite file (title video)] in
          match writeLastTitle host (title video) file (detecting video w1) with
          | (Normal _, _) =>
              (Normal tt,
               {| files := <[file := toWellFormed (title video)]> (files w1);
                  trace := written
                             ++ [EvCall post;
                                 EvLog (delivery_log (host written post));
                                 EvLog (str "Update complete.")] |})
          | (Throw e, _) => (Throw e, detecting video w1)
          | (Exited code, w2) => (Exited code, w2)
          end
    | (Throw e, w1) => (Throw e, w1)
    | (Exited code, w1) => (Exited code, w1)
    end.
Proof.
  intros w0 file. unfold checkForNewVideo.
  rewrite (bind_normal _ _ w tt w0) by reflexivity. fold file.
  destruct (getLatestVideo host url w0) as [[[video|]|e|code] w1] eqn:Hfetch.
  - rewrite (bind_normal _ _ _ _ _ Hfetch).
    rewrite (bind_normal _ _ _ _ _ (readLastTitle_run file w1)).
    case_bool_decide as Hsame.
    + rewrite Hsame. reflexivity.
    + rewrite (bind_normal _ _ w1 tt (detecting video w1)) by reflexivity.
      destruct (writeLastTitle_run host (title video) file (detecting video w1))
        as [Hwrite|[e Hwrite]]; rewrite Hwrite.
      * rewrite (bind_normal _ _ _ _ _ Hwrite).
        rewrite (bind_normal _ _ _ _ _ (sendPushoverNotification_run _ _ _)).
        unfold logWithTimestamp, emit, record, detecting. simpl.
        rewrite <- !app_assoc. reflexivity.
      * now rewrite (bind_throw _ _ _ _ _ Hwrite).
  - now rewrite (bind_normal _ _ _ _ _ Hfetch).
  - now rewrite (bind_throw _ _ _ _ _ Hfetch).
  - now rewrite (bind_exited _ _ _ _ _ Hfetch).
Qed.

End NotificationFacts.

(** ** The claims on file names *)


(** C9: the sanitization is not injective. Two URLs that differ in letter
    case, and two that differ in a character outside letters and digits, get
    the same file name; both can be configured at once, so two distinct
    channels share one last-seen-title file. *)
Theorem fileName_not_injective (U : Casing) :
  let upper := str "https://www.youtube.com/@NewsDesk" in
  let lower := str "https://www.youtube.com/@newsdesk" in
  let dash := str "https://www.youtube.com/@news-desk" in
  let dot := str "https://www.youtube.com/@news.desk" in
  (upper <> lower
   /\ getLatestTitleFileName U upper = getLatestTitleFileName U lower)
  /\ (dash <> dot
      /\ getLatestTitleFileName U dash = getLatestTitleFileName U dot)
  /\ YOUTUBE_CHANNEL_URLS
       (example_env
          (Some (str "https://www.youtube.com/@NewsDesk, https://www.youtube.com/@newsdesk")))
     = [upper; lower].
Proof.
  intros upper lower dash dot.
  unfold getLatestTitleFileName, toLowerCase.
  rewrite !replace_class_underscore, !safeName_ascii.
  repeat split; try discriminate; vm_compute; reflexivity.
Qed.

(** ** The claims on the persisted title *)

(** C4, as stated, fails: a title that starts with a space does not read back
    as written. *)
Lemma read_after_write_not_identity :
  fst ((writeLastTitle (example_host None (Resolve tt)) (str " Live now")
          (str "c_latest_title.txt");;
        readLastTitle (str "c_latest_title.txt")) empty_world)
  <> Normal (Some (str " Live now")).
Proof. vm_compute. discriminate. Qed.

(** C4, amended: reading the file with [readLastTitle] right after
    [writeLastTitle] succeeded in writing a title to it returns the title as
    its UTF-8 encoding decodes, every lone surrogate replaced by U+FFFD, with
    the white space at both ends removed, or null when nothing is left; the
    file holds that encoding. The written title comes back exactly when it is
    not empty, well formed, and neither starts nor ends with white space.
    When the write fails, its exception is thrown and nothing is read. *)
Theorem read_after_write (host : Host) (title filename : jsstring)
  (w : World) :
  let r := (writeLastTitle host title filename;; readLastTitle filename) w in
  (fst (writeLastTitle host title filename w) = Normal tt ->
   fst r
   = Normal (if truthy (trim (toWellFormed title))
             then Some (trim (toWellFormed title)) else None)
   /\ files (snd r) !! filename = Some (toWellFormed title)
   /\ (fst r = Normal (Some title)
       <-> title <> [] /\ trim title = title /\ toWellFormed title = title))
  /\ (fst (writeLastTitle host title filename w) <> Normal tt ->
      exists e, r = (Throw e, w)).
Proof.
  intros r. subst r. split.
  - intros Hwrite%writeLastTitle_Normal.
    rewrite (bind_normal _ _ _ _ _ Hwrite).
    rewrite readLastTitle_run. cbn [fst snd files].
    rewrite lastTitle_insert, lookup_insert_eq.
    split; [reflexivity|]. split; [reflexivity|].
    destruct (truthy (trim (toWellFormed title))) eqn:Ht.
    + split.
      * intros [= Heq].
        (* a trim that returns a string as long as its argument did nothing *)
        assert (Hfixed : trim (toWellFormed title) = toWellFormed title).
        { destruct (trim_shorter (toWellFormed title)) as [H|H]; [exact H|].
          rewrite Heq, length_toWellFormed in H. lia. }
        rewrite Hfixed in Heq.
        split; [|split; [congruence | exact Heq]].
        apply truthy_true in Ht. congruence.
      * intros (_ & Htrim & Hwf). now rewrite Hwf, Htrim.
    + apply truthy_false in Ht. split; [discriminate|].
      intros (Hne & Htrim & Hwf). congruence.
  - intros [e Hwrite]%writeLastTitle_not_Normal.
    exists e. now rewrite (bind_throw _ _ _ _ _ Hwrite).
Qed.

(** A title with a lone surrogate, written to a file that can be written. *)
Lemma read_after_write_witness :
  let host := example_host None (Resolve tt) in
  let title := [0x61; 0xD83D] in
  let filename := str "c_latest_title.txt" in
  let r := (writeLastTitle host title filename;; readLastTitle filename)
             empty_world in
  fst r
  = Normal (if truthy (trim (toWellFormed title))
            then Some (trim (toWellFormed title)) else None)
  /\ files (snd r) !! filename = Some (toWellFormed title)
  /\ (fst r = Normal (Some title)
      <-> title <> [] /\ trim title = title /\ toWellFormed title = title).
Proof.
  intros host title filename r.
  apply (proj1 (read_after_write host title filename empty_world)).
  vm_compute. reflexivity.
Defined.

(** ** The claim on the channel list *)

(** C6, as stated, fails: a variable that is set to the empty string does not
    give what splitting it on commas gives, the one-element list of the empty
    string, but the empty list. *)
Lemma channel_list_of_empty_variable :
  YOUTUBE_CHANNEL_URLS (example_env (Some (str "")))
  <> map trim (split 0x2C (str "")).
Proof. vm_compute. discriminate. Qed.

Lemma trim_channels urls : Forall (fun url => trim url = url) (map trim urls).
Proof.
  induction urls; simpl; constructor; auto using trim_idempotent.
Qed.

(** C6, amended: the monitored channels are obtained by splitting the
    channel-list variable on commas and trimming the white space around each
    element; when the variable is unset or set to the empty string, the list
    is empty and a poll cycle visits no channel: it logs its start and
    does nothing else. *)
Theorem channel_list_from_environment
  (U : Casing) (process_env : ProcessEnv) (host : Host) (w : World) :
  YOUTUBE_CHANNEL_URLS process_env
  = match env_YOUTUBE_CHANNEL_URLS process_env with
    | Some (c :: urls) => map trim (split 0x2C (c :: urls))
    | _ => []
    end
  /\ Forall (fun url => trim url = url) (YOUTUBE_CHANNEL_URLS process_env)
  /\ match env_YOUTUBE_CHANNEL_URLS process_env with
     | Some (_ :: _) => True
     | _ =>
         checkForAllNewVideos U process_env host w
         = (Normal tt,
            record (EvLog (str "Checking all configured channels...")) w)
     end.
Proof.
  unfold checkForAllNewVideos, YOUTUBE_CHANNEL_URLS.
  destruct (env_YOUTUBE_CHANNEL_URLS process_env) as [[|c urls]|];
    cbn [truthy]; repeat split; auto using trim_channels.
Qed.

(** ** One poll step *)

Section PollStep.
Variable U : Casing.
Variable process_env : ProcessEnv.
Variable host : Host.

Lemma fetch_frame url w o w1 :
  getLatestVideo host url w = (o, w1) ->
  files w1 = files w
  /\ exists evs, trace w1 = trace w ++ evs /\ forallb silent evs = true.
Proof.
  intros H. pose proof (getLatestVideo_quiet host url w) as Hq.
  now rewrite H in Hq.
Qed.

(** What a poll step does to the files and which effects it has, by the
    result of the fetch, the stored title and the outcome of the write. *)
Lemma checkForNewVideo_effects url w :
  let w0 := record (EvLog (str "Checking for new video on: " ++ url)) w in
  let file := getLatestTitleFileName U url in
  let r := checkForNewVideo U process_env host url w in
  let unchanged := files (snd r) = files w /\ effects (emitted w (snd r)) = [] in
  match fst (getLatestVideo host url w0) with
  | Normal (Some video) =>
      if bool_decide (lastTitle (files w) file = Some (title video)) then
        fst r = Normal tt /\ unchanged
      else
        match fst (writeLastTitle host (title video) file
                     (detecting video (snd (getLatestVideo host url w0)))) with
        | Normal _ =>
            fst r = Normal tt
            /\ files (snd r) = <[file := toWellFormed (title video)]> (files w)
            /\ effects (emitted w (snd r))
               = [EvWrite file (title video);
                  EvCall (axios_post endpoint
                            (pushoverPayload process_env video url))]
        | Throw e => fst r = Throw e /\ unchanged
        | Exited _ => False
        end
  | Normal None => fst r = Normal tt /\ unchanged
  | Throw e => fst r = Throw e /\ unchanged
  | Exited code => fst r = Exited code /\ unchanged
  end.
Proof.
  intros w0 file r unchanged. subst r unchanged.
  rewrite checkForNewVideo_run. fold w0 file.
  destruct (getLatestVideo host url w0) as [o w1] eqn:Hfetch.
  destruct (fetch_frame _ _ _ _ Hfetch) as (Hfiles & evs & Htrace & Hsilent).
  assert (Hw1 : trace w1 = trace w ++ (EvLog (str "Checking for new video on: " ++ url) :: evs)).
  { rewrite Htrace. unfold w0, record. simpl. now rewrite <- app_assoc. }
  assert (Hquiet : effects (EvLog (str "Checking for new video on: " ++ url) :: evs) = []).
  { apply effects_silent. simpl. exact Hsilent. }
  change (files w0) with (files w) in Hfiles.
  destruct o as [[video|]|e|code]; cbn [fst snd].
  - rewrite Hfiles.
    case_bool_decide as Hsame; cbn [fst snd files].
    + split; [reflexivity|]. split; [exact Hfiles|].
      erewrite emitted_app
        by (unfold record; cbn [trace]; rewrite Hw1, <- app_assoc; reflexivity).
      rewrite effects_app, Hquiet. reflexivity.
    + cbv zeta.
      destruct (writeLastTitle_run host (title video) file (detecting video w1))
        as [Hwrite|[e Hwrite]]; rewrite Hwrite; cbn [fst snd files].
      * split; [reflexivity|]. split; [reflexivity|].
        erewrite emitted_app
          by (cbn [trace]; rewrite Hw1, <- !app_assoc; reflexivity).
        rewrite !effects_app, Hquiet. reflexivity.
      * split; [reflexivity|]. split; [exact Hfiles|].
        erewrite emitted_app
          by (unfold detecting, record; cbn [trace]; rewrite Hw1, <- app_assoc;
              reflexivity).
        rewrite effects_app, Hquiet. reflexivity.
  - split; [reflexivity|]. split; [exact Hfiles|].
    erewrite emitted_app
      by (unfold record; cbn [trace]; rewrite Hw1, <- app_assoc; reflexivity).
    rewrite effects_app, Hquiet. reflexivity.
  - split; [reflexivity|]. split; [exact Hfiles|].
    erewrite emitted_app by exact Hw1. exact Hquiet.
  - split; [reflexivity|]. split; [exact Hfiles|].
    erewrite emitted_app by exact Hw1. exact Hquiet.
Qed.

(** The same after a fetch that returned a video, by cases. *)
Lemma checkForNewVideo_cases url w video w1 :
  getLatestVideo host url (checking url w) = (Normal (Some video), w1) ->
  let file := getLatestTitleFileName U url in
  let r := checkForNewVideo U process_env host url w in
  let unchanged := files (snd r) = files w /\ effects (emitted w (snd r)) = [] in
  (lastTitle (files w) file = Some (title video)
   /\ fst r = Normal tt /\ unchanged)
  \/ (lastTitle (files w) file <> Some (title video)
      /\ fst (writeLastTitle host (title video) file (detecting video w1))
         = Normal tt
      /\ fst r = Normal tt
      /\ files (snd r) = <[file := toWellFormed (title video)]> (files w)
      /\ effects (emitted w (snd r))
         = [EvWrite file (title video);
            EvCall (axios_post endpoint
                      (pushoverPayload process_env video url))])
  \/ (lastTitle (files w) file <> Some (title video)
      /\ exists e,
           fst (writeLastTitle host (title video) file (detecting video w1))
           = Throw e
           /\ fst r = Throw e /\ unchanged).
Proof.
  intros Hfetch file r unchanged. subst r unchanged.
  pose proof (checkForNewVideo_effects url w) as H.
  cbv zeta in H. fold (checking url w) in H. rewrite Hfetch in H.
  cbn [fst snd] in H. fold file in H.
  case_bool_decide as Hsame; [left; tauto|]. right.
  destruct (fst (writeLastTitle host (title video) file (detecting video w1)))
    as [[]|e|code]; [left; tauto | right | contradiction].
  split; [exact Hsame|]. exists e. tauto.
Qed.

End PollStep.

Section PollClaims.
Variable U : Casing.
Variable process_env : ProcessEnv.
Variable host : Host.


(** C8: when no latest video could be fetched (a null result) or the fetched
    title equals the stored one, the step leaves every file as it was and
    posts nothing; a file changes or a write happens only on a detected
    change, and then it is the channel's file that receives the new title. *)
Theorem poll_step_frame url w :
  let file := getLatestTitleFileName U url in
  let fetched := fst (getLatestVideo host url (checking url w)) in
  let stored := fst (readLastTitle file w) in
  let w2 := snd (checkForNewVideo U process_env host url w) in
  ((fetched = Normal None
    \/ exists video,
         fetched = Normal (Some video)
         /\ stored = Normal (Some (title video))) ->
   files w2 = files w /\ effects (emitted w w2) = [])
  /\ ((files w2 <> files w \/ effects (emitted w w2) <> []) ->
      exists video,
        fetched = Normal (Some video)
        /\ stored <> Normal (Some (title video))
        /\ files w2 = <[file := toWellFormed (title video)]> (files w)).
Proof.
  intros file fetched stored w2. subst fetched stored w2.
  pose proof (checkForNewVideo_effects U process_env host url w) as H.
  cbv zeta in H. fold (checking url w) in H. fold file in H.
  rewrite readLastTitle_run. cbn [fst].
  destruct (fst (getLatestVideo host url (checking url w)))
    as [[video|]|e|code].
  - case_bool_decide as Hsame; split.
    + tauto.
    + intros [Hc|Hc]; tauto.
    + intros [[=]|(v & [= <-] & [= Hv])]. congruence.
    + intros Hc. exists video.
      destruct (fst (writeLastTitle _ _ _ _)) as [[]|e|code];
        [|tauto|contradiction].
      repeat split; [congruence | apply H].
  - split; [tauto|]. intros [Hc|Hc]; tauto.
  - split; [tauto|]. intros [Hc|Hc]; tauto.
  - split; [tauto|]. intros [Hc|Hc]; tauto.
Qed.

End PollClaims.



(** A run whose fetch finds no video, and a run whose stored title is the
    fetched one: both leave the files alone and post nothing. *)
Lemma poll_step_frame_witness :
  let env := example_env (Some example_url) in
  let same := world_with_title (str "Evening bulletin") in
  let absent := example_host None (Resolve tt) in
  let present := example_host (Some example_element) (Resolve tt) in
  let w2 := snd (checkForNewVideo identity_casing env absent example_url same) in
  let w2' := snd (checkForNewVideo identity_casing env present example_url same) in
  (files w2 = files same /\ effects (emitted same w2) = [])
  /\ (files w2' = files same /\ effects (emitted same w2') = []).
Proof.
  intros env same absent present w2 w2'. split.
  - apply (proj1 (poll_step_frame identity_casing env absent example_url same)).
    left. vm_compute. reflexivity.
  - apply (proj1 (poll_step_frame identity_casing env present example_url same)).
    right. exists example_video. split; vm_compute; reflexivity.
Defined.

Section DeliveryClaims.
Variable U : Casing.
Variable process_env : ProcessEnv.
Variable host : Host.


(** C7: a notification that a poll step posts carries the fetched item: it
    goes to the fixed endpoint, its [url] is the fetched link, its [message]
    ends with the fetched title, and the other fields are constants or the
    credentials of the environment. *)
Theorem notification_carries_new_item url w endpoint' payload :
  In (EvCall (axios_post endpoint' payload))
     (emitted w (snd (checkForNewVideo U process_env host url w))) ->
  exists video w1,
    getLatestVideo host url (checking url w) = (Normal (Some video), w1)
    /\ endpoint' = str "https://api.pushover.net/1/messages.json"
    /\ (exists before, Payload.message payload = before ++ title video)
    /\ Payload.url payload = link video
    /\ payload
       = {| Payload.token := env_PUSHOVER_API_TOKEN process_env;
            Payload.user := env_PUSHOVER_USER_KEY process_env;
            Payload.message :=
              str "New video on " ++ channelName url ++ str ": "
                ++ title video;
            Payload.title := str "New YouTube Video";
            Payload.url := link video;
            Payload.url_title := str "Watch Video";
            Payload.priority := 2;
            Payload.sound := str "siren";
            Payload.retry := 30;
            Payload.expire := 3600 |}.
Proof.
  intros Hin.
  assert (Heff : In (EvCall (axios_post endpoint' payload))
                    (effects (emitted w (snd (checkForNewVideo U process_env host url w))))).
  { apply filter_In. split; [exact Hin | reflexivity]. }
  clear Hin.
  pose proof (checkForNewVideo_effects U process_env host url w) as H.
  cbv zeta in H. fold (checking url w) in H.
  destruct (getLatestVideo host url (checking url w)) as [o w1].
  cbn [fst snd] in H.
  destruct o as [[video|]|e|code];
    try (destruct H as (_ & _ & H); rewrite H in Heff; contradiction).
  case_bool_decide.
  - destruct H as (_ & _ & H). rewrite H in Heff. contradiction.
  - destruct (fst (writeLastTitle _ _ _ _)) as [[]|e|code];
      [|destruct H as (_ & _ & H); rewrite H in Heff; contradiction
       |contradiction].
    destruct H as (_ & _ & H). rewrite H in Heff.
    destruct Heff as [[=]|[[= <- <-]|[]]].
    exists video, w1. split; [reflexivity|]. split; [reflexivity|].
    split; [|split; reflexivity].
    exists (str "New video on " ++ channelName url ++ str ": ").
    cbn [pushoverPayload Payload.message]. now rewrite <- !app_assoc.
Qed.

(** C10, amended: [readLastTitle] returns null exactly when the file does not
    exist or its contents trim to the empty string. So a fetched title that
    is empty or all white space differs from whatever the file held: when the
    write of it succeeds it is written and notified, and reads back as null
    afterwards, so that the next poll step finds the same difference again;
    when the write fails the step throws, and nothing is written or
    posted. *)
Theorem blank_title_renotifies :
  (forall filename w,
     fst (readLastTitle filename w) = Normal None
     <-> files w !! filename = None
         \/ exists contents,
              files w !! filename = Some contents /\ trim contents = [])
  /\ (forall url w video w1,
        let file := getLatestTitleFileName U url in
        getLatestVideo host url (checking url w) = (Normal (Some video), w1) ->
        trim (title video) = [] ->
        fst (readLastTitle file w) <> Normal (Some (title video))
        /\ match fst (writeLastTitle host (title video) file
                        (detecting video w1)) with
           | Normal _ =>
               exists w2,
                 checkForNewVideo U process_env host url w = (Normal tt, w2)
                 /\ effects (emitted w w2)
                    = [EvWrite file (title video);
                       EvCall (axios_post endpoint
                                 (pushoverPayload process_env video url))]
                 /\ files w2 !! file = Some (title video)
                 /\ fst (readLastTitle file w2) = Normal None
           | Throw e =>
               exists w2,
                 checkForNewVideo U process_env host url w = (Throw e, w2)
                 /\ effects (emitted w w2) = []
                 /\ files w2 = files w
           | Exited _ => False
           end).
Proof.
  split.
  - intros filename w. rewrite readLastTitle_run. cbn [fst].
    rewrite <- lastTitle_None. split; congruence.
  - intros url w video w1 file Hfetch Hblank.
    assert (Hdiff : lastTitle (files w) file <> Some (title video)).
    { intros Hsame. apply lastTitle_Some in Hsame as [Htrim Hne]. congruence. }
    split; [rewrite readLastTitle_run; cbn [fst]; congruence|].
    pose proof (checkForNewVideo_effects U process_env host url w) as H.
    cbv zeta in H. fold (checking url w) in H. rewrite Hfetch in H.
    cbn [fst snd] in H. fold file in H.
    rewrite bool_decide_eq_false_2 in H by exact Hdiff.
    destruct (checkForNewVideo U process_env host url w) as [o w2].
    cbn [fst snd] in H.
    destruct (fst (writeLastTitle _ _ _ _)) as [[]|e|code]; [| |contradiction].
    + destruct H as (-> & Hfiles & Heff). exists w2.
      split; [reflexivity|]. split; [exact Heff|].
      rewrite readLastTitle_run, Hfiles, lookup_insert_eq, lastTitle_insert.
      rewrite (toWellFormed_whitespace (title video))
        by now apply trim_nil_whitespace.
      rewrite Hblank. split; reflexivity.
    + destruct H as (-> & Hfiles & Heff). exists w2. tauto.
Qed.

End DeliveryClaims.



(** The notification of a run with a new title and nothing stored. *)
Lemma notification_carries_new_item_witness :
  let host := example_host (Some example_element) (Resolve tt) in
  let env := example_env (Some example_url) in
  exists video w1,
    getLatestVideo host example_url (checking example_url empty_world)
    = (Normal (Some video), w1)
    /\ endpoint = str "https://api.pushover.net/1/messages.json"
    /\ (exists before,
          Payload.message (pushoverPayload env example_video example_url)
          = before ++ title video)
    /\ Payload.url (pushoverPayload env example_video example_url) = link video
    /\ pushoverPayload env example_video example_url
       = {| Payload.token := env_PUSHOVER_API_TOKEN env;
            Payload.user := env_PUSHOVER_USER_KEY env;
            Payload.message :=
              str "New video on " ++ channelName example_url ++ str ": "
                ++ title video;
            Payload.title := str "New YouTube Video";
            Payload.url := link video;
            Payload.url_title := str "Watch Video";
            Payload.priority := 2;
            Payload.sound := str "siren";
            Payload.retry := 30;
            Payload.expire := 3600 |}.
Proof.
  intros host env.
  apply (notification_carries_new_item identity_casing env host example_url
           empty_world).
  vm_compute. repeat first [left; reflexivity | right].
Defined.

(** C10, as stated, fails: the blank title of a channel with a long URL
    compares as different, but it triggers neither persistence nor
    notification, because the file cannot be written. *)
Lemma blank_title_of_long_url_is_dropped :
  let host := example_host (Some blank_element) (Resolve tt) in
  let env := example_env (Some long_url) in
  let file := getLatestTitleFileName identity_casing long_url in
  let video := {| title := str ""; link := href blank_element |} in
  let r := checkForNewVideo identity_casing env host long_url empty_world in
  fst (getLatestVideo host long_url (checking long_url empty_world))
  = Normal (Some video)
  /\ fst (readLastTitle file empty_world) <> Normal (Some (title video))
  /\ fst r = Throw ENAMETOOLONG
  /\ files (snd r) = files empty_world
  /\ effects (emitted empty_world (snd r)) = [].
Proof. vm_compute. repeat split; try reflexivity. discriminate. Qed.

(** A page whose newest upload has a blank title, and a file that is
    empty. *)
Lemma blank_title_renotifies_witness :
  let host := example_host (Some blank_element) (Resolve tt) in
  let env := example_env (Some example_url) in
  let file := getLatestTitleFileName identity_casing example_url in
  let video := {| title := str ""; link := href blank_element |} in
  let w := world_with_title (str "") in
  fst (readLastTitle file w) <> Normal (Some (title video))
  /\ exists w2,
       checkForNewVideo identity_casing env host example_url w = (Normal tt, w2)
       /\ effects (emitted w w2)
          = [EvWrite file (title video);
             EvCall (axios_post endpoint (pushoverPayload env video example_url))]
       /\ files w2 !! file = Some (title video)
       /\ fst (readLastTitle file w2) = Normal None.
Proof.
  intros host env file video w.
  exact (proj2 (blank_title_renotifies identity_casing env host)
           example_url w video
           (snd (getLatestVideo host example_url (checking example_url w)))
           ltac:(vm_compute; reflexivity) ltac:(vm_compute; reflexivity)).
Defined.

(** ** Failure of the fetch *)

Lemma snoc3 {A} (l : list A) x y z : ((l ++ [x]) ++ [y]) ++ [z] = l ++ [x; y; z].
Proof. now rewrite <- !app_assoc. Qed.

Section FetchFailure.
Variable host : Host.

(** Runs the next request of the goal both ways. *)
Ltac next_reply :=
  match goal with
  | |- context [host ?t ?r] =>
      let reply := fresh "reply" in
      destruct (host t r) as [reply|reply] eqn:?;
      cbn in reply; cbn -[str app]
  end.

(** The three ways in which [getLatestVideo] ends. It returns only when
    every request was resolved. After a rejected request it goes through
    [restartScript], which spawns the process anew and exits with code 1;
    unless the [browser.close()] of its handler is rejected as well: that
    exception leaves the function, and nothing is spawned. *)
Lemma getLatestVideo_outcomes url w :
  match getLatestVideo host url w with
  | (Normal _, w') =>
      exists evs, trace w' = trace w ++ evs /\ all_resolved host (trace w) evs
  | (Exited code, w') =>
      code = 1%Z
      /\ exists pre,
           trace w'
           = pre ++ [EvLog (str "Restarting script due to error...");
                     EvSpawn; EvExit 1]
  | (Throw e, w') =>
      exists pre,
        trace w' = pre ++ [EvCall browser_close]
        /\ host pre browser_close = Reject e
        /\ ~ In EvSpawn (emitted w w')
  end.
Proof.
  unfold getLatestVideo, attempt, try_catch, getLatestVideo_catch,
    extract_latest, restartScript, logWithTimestamp, sleep, spawn_self,
    process_exit, emit, call, mbind, Prog_bind, mret, Prog_ret, record.
  cbn -[str app].
  repeat first
    [ next_reply
    | match goal with
      | v : option Element |- _ => destruct v; cbn -[str app]
      | b : bool |- _ => destruct b; cbn -[str app]
      end ];
    first
      [ match goal with
        | |- exists evs, ?t = _ /\ _ =>
            let t0 := fresh "t" in
            let Ht := fresh "Ht" in
            remember t as t0 eqn:Ht;
            rewrite <- !app_assoc in Ht; cbn [app] in Ht; subst t0
        end;
        eexists; split; [reflexivity|];
        cbn [all_resolved]; repeat split; eauto
      | split; [reflexivity|]; eexists; apply snoc3
      | eexists; split; [reflexivity|]; split; [eassumption|];
        match goal with
        | |- context [emitted w {| files := ?f; trace := ?t |}] =>
            let t0 := fresh "t" in
            let Ht := fresh "Ht" in
            remember t as t0 eqn:Ht;
            rewrite <- !app_assoc in Ht; cbn [app] in Ht; subst t0
        end;
        erewrite emitted_app by (cbn [trace]; reflexivity);
        cbn [In]; intros H;
        repeat (destruct H as [H|H]; [discriminate H|]); exact H ].
Qed.

End FetchFailure.

(** ** Failure of the fetch within a cycle *)

Lemma for_of_exited {A} (body : A -> Prog unit) x rest w code w' :
  body x w = (Exited code, w') ->
  for_of (x :: rest) body w = (Exited code, w').
Proof. intros H. cbn [for_of]. now apply bind_exited. Qed.

Lemma for_of_throw {A} (body : A -> Prog unit) x rest w e w' :
  body x w = (Throw e, w') ->
  for_of (x :: rest) body w = (Throw e, w').
Proof. intros H. cbn [for_of]. now apply bind_throw. Qed.

(** A step that returns hands the world on to the steps of the channels after
    it. *)
Lemma for_of_normal {A} (body : A -> Prog unit) x rest w w' :
  body x w = (Normal tt, w') ->
  for_of (x :: rest) body w = for_of rest body w'.
Proof. intros H. cbn [for_of]. now rewrite (bind_normal _ _ _ _ _ H). Qed.

(** When the fetch for a channel ends in [restartScript], so does the loop
    over the channels: the channels after it are not visited. *)
Lemma fetch_exit_ends_loop U process_env host url rest w code w1 :
  getLatestVideo host url (checking url w) = (Exited code, w1) ->
  for_of (url :: rest) (checkForNewVideo U process_env host) w
  = (Exited code, w1).
Proof.
  intros H. apply for_of_exited.
  rewrite checkForNewVideo_run. fold (checking url w). now rewrite H.
Qed.

(** An exception that leaves the fetch leaves the loop as well. *)
Lemma fetch_throw_ends_loop U process_env host url rest w e w1 :
  getLatestVideo host url (checking url w) = (Throw e, w1) ->
  for_of (url :: rest) (checkForNewVideo U process_env host) w
  = (Throw e, w1).
Proof.
  intros H. apply for_of_throw.
  rewrite checkForNewVideo_run. fold (checking url w). now rewrite H.
Qed.

(** The recovery that the handler intends: the page cannot be opened, the
    browser closes, and the cycle ends in spawn and exit before the second
    channel is looked at. *)
Example page_failure_restarts :
  checkForAllNewVideos identity_casing two_channels
    (host_page_fails (Resolve tt)) empty_world
  = (Exited 1,
     {| files := ∅;
        trace :=
          [EvLog (str "Checking all configured channels...");
           EvLog (str "Checking for new video on: https://www.youtube.com/@first");
           EvCall puppeteer_launch;
           EvCall browser_newPage;
           EvCall browser_close;
           EvLog (str "Unexpected error in getLatestVideo: Target closed");
           EvLog (str "Restarting script due to error...");
           EvSpawn;
           EvExit 1] |}).
Proof. vm_compute. reflexivity. Qed.

(** C3: a fetch failure should end the run by spawning a new copy of the
    process and exiting. Here the page cannot be opened and the
    [browser.close()] of the handler is rejected too: the exception of
    [close] leaves [getLatestVideo] and the cycle, the second channel is not
    visited, and there is neither a spawn nor an exit. *)
Theorem cleanup_failure_skips_restart :
  let run :=
    checkForAllNewVideos identity_casing two_channels
      (host_page_fails (Reject close_failed)) empty_world in
  run
  = (Throw close_failed,
     {| files := ∅;
        trace :=
          [EvLog (str "Checking all configured channels...");
           EvLog (str "Checking for new video on: https://www.youtube.com/@first");
           EvCall puppeteer_launch;
           EvCall browser_newPage;
           EvCall browser_close] |})
  /\ ~ In EvSpawn (trace (snd run))
  /\ ~ In (EvExit 1) (trace (snd run)).
Proof.
  vm_compute. split; [reflexivity|].
  split; intros H; repeat (destruct H as [H|H]; [discriminate H|]); exact H.
Qed.

(** * Further properties *)

(** ** The fetch, path by path *)

Lemma navigations_app evs1 evs2 :
  navigations (evs1 ++ evs2) = navigations evs1 ++ navigations evs2.
Proof. apply flat_map_app. Qed.

Lemma closes_app evs1 evs2 : closes (evs1 ++ evs2) = (closes evs1 + closes evs2)%nat.
Proof. unfold closes. now rewrite List.filter_app, length_app. Qed.

Lemma spawned_app evs1 evs2 : spawned (evs1 ++ evs2) = spawned evs1 || spawned evs2.
Proof. apply existsb_app. Qed.

Lemma exited_app evs1 evs2 : exited (evs1 ++ evs2) = exited evs1 || exited evs2.
Proof. apply existsb_app. Qed.

Section FetchPaths.
Variable host : Host.

(** Runs the next request of the goal both ways. *)
Ltac branch_on_reply :=
  match goal with
  | |- context [host ?t ?r] =>
      let reply := fresh "reply" in
      destruct (host t r) as [reply|reply] eqn:?;
      cbn in reply; cbn -[str app]
  | v : option Element |- _ => destruct v; cbn -[str app]
  | b : bool |- _ => destruct b; cbn -[str app]
  end.

(** Rewrites the trace of the final world as [trace w] followed by the list
    of the events of the run. *)
Ltac flatten_emitted w :=
  repeat match goal with
    | |- context [emitted w {| files := ?f; trace := ?t |}] =>
        let t0 := fresh "t" in
        let Ht := fresh "Ht" in
        remember t as t0 eqn:Ht in |- *;
        rewrite <- !app_assoc in Ht; cbn [app] in Ht; subst t0;
        erewrite emitted_app by (cbn [trace]; reflexivity)
    end.

(** Everything the later properties need to know of a fetch, read off each
    of its paths. *)
Lemma getLatestVideo_paths url w :
  let r := getLatestVideo host url w in
  let evs := emitted w (snd r) in
  match host (trace w) puppeteer_launch with
  | Resolve _ => (1 <= closes evs <= 2)%nat
  | Reject _ => closes evs = 0%nat /\ fst r = Exited 1
  end
  /\ match fst r with
     | Normal found =>
         closes evs = 1%nat
         /\ navigations evs = [url]
         /\ spawned evs = false
         /\ exited evs = false
         /\ match found with
            | Some video =>
                exists pre element,
                  host pre (page_querySelector video_selector)
                  = Resolve (Some element)
                  /\ video = {| title := trim (textContent element);
                                link := href element |}
            | None => True
            end
     | Exited code =>
         code = 1%Z
         /\ (navigations evs = [] \/ navigations evs = [url])
         /\ spawned evs = true
         /\ exited evs = true
     | Throw e =>
         (navigations evs = [] \/ navigations evs = [url])
         /\ spawned evs = false
         /\ exited evs = false
     end.
Proof.
  unfold getLatestVideo, attempt, try_catch, getLatestVideo_catch,
    extract_latest, restartScript, logWithTimestamp, sleep, spawn_self,
    process_exit, emit, call, mbind, Prog_bind, mret, Prog_ret, record,
    video_selector.
  cbn -[str app].
  repeat branch_on_reply;
    flatten_emitted w;
    cbn -[str trim];
    repeat split; auto; try lia;
    eauto 6.
Qed.

End FetchPaths.

(** ** One step and one cycle, summed up *)

Section CycleFacts.
Variable U : Casing.
Variable process_env : ProcessEnv.
Variable host : Host.

Lemma checkForNewVideo_summary url w :
  let r := checkForNewVideo U process_env host url w in
  let file := getLatestTitleFileName U url in
  exists evs,
    trace (snd r) = trace w ++ evs
    /\ run_shape (fst r) evs
    /\ match fst r with
       | Normal _ => navigations evs = [url]
       | _ => navigations evs = [] \/ navigations evs = [url]
       end
    /\ ((effects evs = [] /\ files (snd r) = files w)
        \/ exists video w1,
             fst r = Normal tt
             /\ getLatestVideo host url (checking url w)
                = (Normal (Some video), w1)
             /\ lastTitle (files w) file <> Some (title video)
             /\ effects evs = change_effects U process_env (url, video)
             /\ files (snd r)
                = <[file := toWellFormed (title video)]> (files w)).
Proof.
  intros r file.
  pose proof (checkForNewVideo_effects U process_env host url w) as Heff.
  pose proof (getLatestVideo_paths host url (checking url w)) as Hpaths.
  cbv zeta in Heff, Hpaths. fold (checking url w) in Heff. fold r file in Heff.
  assert (Hrun := checkForNewVideo_run U process_env host url w).
  cbv zeta in Hrun. fold (checking url w) in Hrun. fold r file in Hrun.
  destruct (getLatestVideo host url (checking url w)) as [o w1] eqn:Hfetch.
  destruct (fetch_frame _ _ _ _ _ Hfetch) as (Hfiles & fevs & Htrace & _).
  change (files (checking url w)) with (files w) in Hfiles.
  rewrite Hfiles in Hrun. cbn [fst snd] in *.
  rewrite (emitted_app _ _ _ Htrace) in Hpaths.
  destruct Hpaths as [_ Hpaths].
  set (start := EvLog (str "Checking for new video on: " ++ url)) in *.
  assert (Hw1 : forall tail,
             trace w1 ++ tail = trace w ++ [start] ++ fevs ++ tail).
  { intros tail. rewrite Htrace. unfold checking, record. cbn [trace].
    now rewrite <- !app_assoc. }
  assert (Hshape : forall tail,
             spawned tail = false -> exited tail = false ->
             navigations tail = [] ->
             spawned ([start] ++ fevs ++ tail) = spawned fevs
             /\ exited ([start] ++ fevs ++ tail) = exited fevs
             /\ navigations ([start] ++ fevs ++ tail) = navigations fevs).
  { intros tail Hs He Hn.
    rewrite !spawned_app, !exited_app, !navigations_app, Hs, He, Hn.
    rewrite !orb_false_r, app_nil_r. repeat split; reflexivity. }
  destruct o as [[video|]|e|code].
  - destruct Hpaths as (_ & Hnav & Hsp & Hex & _).
    case_bool_decide as Hsame.
    + rewrite Hrun in Heff |- *. clear Hrun. unfold record in *.
      cbn [fst snd trace files] in *. destruct Heff as [_ Heff].
      eexists ([start] ++ fevs ++ [_]). split; [apply Hw1|].
      erewrite emitted_app in Heff by (cbn [trace]; apply Hw1).
      cbn [run_shape]. destruct (Hshape [EvLog (str "No new video. The latest video is still: "
                                 ++ title video)])
        as (-> & -> & ->); try reflexivity.
      repeat split; auto. left. tauto.
    + destruct (writeLastTitle_run host (title video) file (detecting video w1))
        as [Hwrite|[err Hwrite]]; rewrite Hwrite in Hrun, Heff;
        rewrite Hrun in Heff |- *; clear Hrun Hwrite;
        unfold detecting, record in *; cbn [fst snd trace files] in *.
      * rewrite <- app_assoc in Heff |- *. cbn [app] in Heff |- *.
        eexists ([start] ++ fevs ++ _). split; [apply Hw1|].
        erewrite emitted_app in Heff by (cbn [trace]; apply Hw1).
        cbn [run_shape]. edestruct Hshape as (-> & -> & ->); try reflexivity.
        repeat split; auto. right. exists video, w1. tauto.
      * eexists ([start] ++ fevs ++ [_]). split; [apply Hw1|].
        erewrite emitted_app in Heff by (cbn [trace]; apply Hw1).
        cbn [run_shape].
        destruct (Hshape [EvLog (str "New video detected: " ++ title video)])
          as (-> & -> & ->); try reflexivity.
        repeat split; auto. left. tauto.
  - rewrite Hrun in Heff |- *. clear Hrun.
    destruct Hpaths as (_ & Hnav & Hsp & Hex & _).
    destruct Heff as [_ Heff]. unfold record in *.
    cbn [fst snd trace files] in *.
    eexists ([start] ++ fevs ++ [_]). split; [apply Hw1|].
    erewrite emitted_app in Heff by (cbn [trace]; apply Hw1).
    cbn [run_shape]. destruct (Hshape [EvLog (str "No video found for: " ++ url)])
      as (-> & -> & ->); try reflexivity.
    repeat split; auto. left. tauto.
  - rewrite Hrun in Heff |- *. clear Hrun.
    destruct Hpaths as (Hnav & Hsp & Hex).
    destruct Heff as [_ Heff]. cbn [fst snd] in *.
    exists ([start] ++ fevs ++ []).
    split; [rewrite <- Hw1; now rewrite app_nil_r|].
    rewrite (emitted_app _ _ ([start] ++ fevs ++ [])) in Heff
      by (rewrite <- Hw1; now rewrite app_nil_r).
    cbn [run_shape]. destruct (Hshape []) as (-> & -> & ->); try reflexivity.
    repeat split; auto. left. tauto.
  - rewrite Hrun in Heff |- *. clear Hrun.
    destruct Hpaths as (Hcode & Hnav & Hsp & Hex).
    destruct Heff as [_ Heff]. cbn [fst snd] in *.
    exists ([start] ++ fevs ++ []).
    split; [rewrite <- Hw1; now rewrite app_nil_r|].
    rewrite (emitted_app _ _ ([start] ++ fevs ++ [])) in Heff
      by (rewrite <- Hw1; now rewrite app_nil_r).
    cbn [run_shape]. destruct (Hshape []) as (-> & -> & ->); try reflexivity.
    repeat split; auto. left. tauto.
Qed.

Lemma run_shape_app {A B} (o1 : Outcome A) (o2 : Outcome B) evs1 evs2 :
  (exists a, o1 = Normal a) -> run_shape o1 evs1 -> run_shape o2 evs2 ->
  run_shape o2 (evs1 ++ evs2).
Proof.
  intros [a ->] [Hs He]. unfold run_shape.
  rewrite spawned_app, exited_app, Hs, He. now destruct o2.
Qed.

(** The changes of a run are also those of a run that started earlier on the
    same files. *)
Lemma detected_changes_earlier w w' changes final :
  trace w `prefix_of` trace w' ->
  files w' = files w ->
  detected_changes U process_env host w' changes final ->
  detected_changes U process_env host w changes final.
Proof.
  intros Hpre Hfiles. destruct changes as [|[url video] rest];
    cbn [detected_changes].
  - intros Hfinal. now transitivity (trace w').
  - intros (w0 & w1 & w2 & Hpre0 & Hfiles0 & Hfetch & Hdiff & Hstep & Hnew
            & Hrest).
    exists w0, w1, w2. rewrite <- Hfiles.
    repeat split; auto; try congruence. now transitivity (trace w').
Qed.

(** The loop over the channels: its events, the URLs it navigated to, and
    the changes it detected, which are its only effects on the files. *)
Lemma for_of_summary urls w :
  let r := for_of urls (checkForNewVideo U process_env host) w in
  exists evs changes,
    trace (snd r) = trace w ++ evs
    /\ run_shape (fst r) evs
    /\ navigations evs `prefix_of` urls
    /\ (fst r = Normal tt -> navigations evs = urls)
    /\ effects evs = flat_map (change_effects U process_env) changes
    /\ map fst changes `sublist_of` urls
    /\ files (snd r) = apply_changes U changes (files w)
    /\ detected_changes U process_env host w changes (snd r).
Proof.
  revert w. induction urls as [|url rest IH]; intros w r.
  - exists [], []. subst r. cbn. rewrite app_nil_r.
    repeat split; auto.
  - destruct (checkForNewVideo_summary url w)
      as (evs1 & Htrace1 & Hshape1 & Hnav1 & Hchange).
    destruct (checkForNewVideo U process_env host url w) as [o1 w1] eqn:Hstep.
    cbn [fst snd] in *.
    assert (Hpre1 : trace w `prefix_of` trace w1)
      by (rewrite Htrace1; now apply prefix_app_r).
    destruct o1 as [[]|e|code].
    + subst r. rewrite (for_of_normal _ _ _ _ _ Hstep).
      destruct (IH w1) as (evs2 & changes2 & Htrace2 & Hshape2 & Hpre & Hall
                           & Heff & Hsub & Hfiles & Hdetected).
      assert (Htrace : trace (snd (for_of rest (checkForNewVideo U process_env host) w1))
                       = trace w ++ evs1 ++ evs2)
        by (rewrite Htrace2, Htrace1, app_assoc; reflexivity).
      assert (Hshape : run_shape
                         (fst (for_of rest (checkForNewVideo U process_env host) w1))
                         (evs1 ++ evs2))
        by (eapply run_shape_app; eauto).
      destruct Hchange as [[Hnone Hsame]
                          |(video & w0 & _ & Hfetch & Hdiff & Hone & Hnew)].
      * exists (evs1 ++ evs2), changes2.
        rewrite navigations_app, Hnav1, effects_app, Hnone, Hfiles, Hsame.
        repeat split; auto.
        -- now apply prefix_cons.
        -- intros Hn. cbn. f_equal. auto.
        -- now apply sublist_cons.
        -- now apply (detected_changes_earlier w w1).
      * exists (evs1 ++ evs2), ((url, video) :: changes2).
        rewrite navigations_app, Hnav1, effects_app, Hone, Hfiles, Hnew, Heff.
        repeat split; auto.
        -- now apply prefix_cons.
        -- intros Hn. cbn. f_equal. auto.
        -- cbn. now apply sublist_skip.
        -- cbn [detected_changes]. exists w, w0, w1. repeat split; auto.
    + subst r. rewrite (for_of_throw _ _ _ _ _ _ Hstep). cbn [fst snd].
      exists evs1, [].
      destruct Hchange as [[Hnone Hsame]|(video & w0 & [=] & _)].
      split; [exact Htrace1|]. split; [exact Hshape1|].
      split; [destruct Hnav1 as [Hn|Hn]; rewrite Hn;
              [apply prefix_nil | apply prefix_cons, prefix_nil]|].
      split; [discriminate|]. split; [exact Hnone|].
      split; [apply sublist_nil_l|]. split; [exact Hsame | exact Hpre1].
    + subst r. rewrite (for_of_exited _ _ _ _ _ _ Hstep). cbn [fst snd].
      exists evs1, [].
      destruct Hchange as [[Hnone Hsame]|(video & w0 & [=] & _)].
      split; [exact Htrace1|]. split; [exact Hshape1|].
      split; [destruct Hnav1 as [Hn|Hn]; rewrite Hn;
              [apply prefix_nil | apply prefix_cons, prefix_nil]|].
      split; [discriminate|]. split; [exact Hnone|].
      split; [apply sublist_nil_l|]. split; [exact Hsame | exact Hpre1].
Qed.

(** The same for the whole cycle, which logs its start first. *)
Lemma checkForAllNewVideos_summary w :
  let r := checkForAllNewVideos U process_env host w in
  let evs := emitted w (snd r) in
  exists changes,
    trace (snd r) = trace w ++ evs
    /\ run_shape (fst r) evs
    /\ navigations evs `prefix_of` YOUTUBE_CHANNEL_URLS process_env
    /\ (fst r = Normal tt -> navigations evs = YOUTUBE_CHANNEL_URLS process_env)
    /\ effects evs = flat_map (change_effects U process_env) changes
    /\ map fst changes `sublist_of` YOUTUBE_CHANNEL_URLS process_env
    /\ files (snd r) = apply_changes U changes (files w)
    /\ detected_changes U process_env host w changes (snd r).
Proof.
  intros r evs. subst r evs. unfold checkForAllNewVideos.
  set (start := EvLog (str "Checking all configured channels...")).
  rewrite (bind_normal _ _ w tt (record start w)) by reflexivity.
  destruct (for_of_summary (YOUTUBE_CHANNEL_URLS process_env) (record start w))
    as (evs & changes & Htrace & Hshape & Hpre & Hall & Heff & Hsub & Hfiles
        & Hdetected).
  cbv zeta in *.
  assert (Hfull : trace (snd (for_of (YOUTUBE_CHANNEL_URLS process_env)
                                (checkForNewVideo U process_env host)
                                (record start w)))
                  = trace w ++ [start] ++ evs).
  { rewrite Htrace. unfold record. cbn [trace]. now rewrite <- app_assoc. }
  rewrite (emitted_app _ _ _ Hfull). exists changes.
  split; [exact Hfull|].
  split.
  { eapply (run_shape_app (Normal tt)); eauto. now split. }
  rewrite navigations_app, effects_app. cbn [app].
  repeat split; auto.
  apply (detected_changes_earlier w (record start w)); auto.
  unfold record. cbn [trace]. now apply prefix_app_r.
Qed.

End CycleFacts.

(** ** Splitting and joining *)

Lemma split_unfold sep s :
  split sep s
  = take_until (fun c => c =? sep) s
      :: match after_first (fun c => c =? sep) s with
         | Some rest => split sep rest
         | None => []
         end.
Proof.
  induction s as [|c s IH]; [reflexivity|].
  cbn [split take_until after_first].
  destruct (c =? sep); [reflexivity|]. now rewrite IH.
Qed.

Lemma take_until_twice (p q : N -> bool) s :
  take_until q (take_until p s) = take_until (fun c => p c || q c) s.
Proof.
  induction s as [|c s IH]; [reflexivity|]. cbn [take_until].
  destruct (p c); [reflexivity|]. cbn [take_until orb].
  destruct (q c); [reflexivity|]. now rewrite IH.
Qed.

Lemma take_until_none stop s :
  Forall (fun c => stop c = false) s -> take_until stop s = s.
Proof.
  induction 1 as [|c s Hc _ IH]; [reflexivity|].
  cbn [take_until]. now rewrite Hc, IH.
Qed.

Lemma take_until_app stop s c rest :
  Forall (fun c => stop c = false) s -> stop c = true ->
  take_until stop (s ++ c :: rest) = s.
Proof.
  induction 1 as [|d s Hd _ IH]; intros Hc; cbn [take_until app].
  - now rewrite Hc.
  - now rewrite Hd, IH.
Qed.

Lemma after_first_app stop s c rest :
  Forall (fun c => stop c = false) s -> stop c = true ->
  after_first stop (s ++ c :: rest) = Some rest.
Proof.
  induction 1 as [|d s Hd _ IH]; intros Hc; cbn [after_first app].
  - now rewrite Hc.
  - now rewrite Hd, IH.
Qed.

Lemma after_first_none stop s :
  Forall (fun c => stop c = false) s -> after_first stop s = None.
Proof.
  induction 1 as [|c s Hc _ IH]; [reflexivity|].
  cbn [after_first]. now rewrite Hc.
Qed.

Lemma not_In_sep sep (s : jsstring) :
  ~ In sep s <-> Forall (fun c => (c =? sep) = false) s.
Proof.
  rewrite Forall_forall. split.
  - intros H c Hc. apply N.eqb_neq. intros ->. now apply H, list_elem_of_In.
  - intros H Hin. apply list_elem_of_In, H in Hin. now rewrite N.eqb_refl in Hin.
Qed.

Lemma split_no_sep sep s : ~ In sep s -> split sep s = [s].
Proof.
  intros H%not_In_sep. rewrite split_unfold.
  now rewrite take_until_none, after_first_none.
Qed.

Lemma split_app sep s rest :
  ~ In sep s -> split sep (s ++ sep :: rest) = s :: split sep rest.
Proof.
  intros H%not_In_sep. rewrite split_unfold.
  rewrite take_until_app, after_first_app; auto using N.eqb_refl.
Qed.

Lemma split_join sep pieces :
  pieces <> [] -> Forall (fun piece => ~ In sep piece) pieces ->
  split sep (join sep pieces) = pieces.
Proof.
  intros Hne Hall. induction Hall as [|piece rest Hp Hrest IH]; [congruence|].
  destruct rest as [|next rest].
  - cbn [join]. now apply split_no_sep.
  - change (join sep (piece :: next :: rest))
      with (piece ++ sep :: join sep (next :: rest)).
    rewrite split_app by assumption. f_equal. now apply IH.
Qed.

Lemma split_snoc_sep sep s : split sep (s ++ [sep]) = split sep s ++ [[]].
Proof.
  induction s as [|c s IH]; cbn [split app].
  - now rewrite N.eqb_refl.
  - destruct (c =? sep); [now rewrite IH|].
    rewrite IH. pose proof (split_unfold sep s) as Hs.
    destruct (split sep s); [discriminate|reflexivity].
Qed.

Lemma length_split sep s :
  length (split sep s) = S (count_occ N.eq_dec s sep).
Proof.
  induction s as [|c s IH]; [reflexivity|]. cbn [split count_occ].
  destruct (N.eqb_spec c sep) as [->|Hne].
  - destruct (N.eq_dec sep sep); [|congruence]. cbn. now rewrite IH.
  - destruct (N.eq_dec c sep); [congruence|].
    rewrite <- IH. now destruct (split sep s).
Qed.

Lemma split_pieces sep s : Forall (fun piece => ~ In sep piece) (split sep s).
Proof.
  induction s as [|c s IH]; cbn [split].
  - constructor; [intros []|constructor].
  - destruct (N.eqb_spec c sep) as [->|Hne].
    + constructor; [intros []|exact IH].
    + destruct (split sep s) as [|piece pieces]; inversion IH; subst.
      * constructor; [|constructor]. intros [?|[]]; congruence.
      * constructor; [|assumption]. intros [?|?]; [congruence|contradiction].
Qed.

Lemma In_trimStart c s : In c (trimStart s) -> In c s.
Proof.
  induction s as [|d s IH]; [trivial|]. cbn [trimStart].
  destruct (is_whitespace d); [|trivial]. intros H. right. auto.
Qed.

Lemma In_trim c s : In c (trim s) -> In c s.
Proof.
  unfold trim, trimEnd. intros H.
  apply in_rev, In_trimStart, in_rev in H. now apply In_trimStart.
Qed.

(** ** The name of the channel in the notification *)

Lemma channelName_spec_channelName channelUrl :
  channelName channelUrl = spec_channelName channelUrl.
Proof.
  unfold channelName, spec_channelName.
  rewrite (split_unfold 0x40 channelUrl). cbn [lookup list_lookup].
  destruct (after_first (fun c => c =? 0x40) channelUrl) as [rest|];
    [|reflexivity].
  rewrite (split_unfold 0x40 rest). cbn [lookup list_lookup].
  rewrite (split_unfold 0x2F). cbn [lookup list_lookup].
  rewrite take_until_twice.
  now destruct (take_until _ rest).
Qed.

(** X1: the channel name of the notification is the text between the first
    ["@"] of the URL and the next ["@"] or ["/"]; when the URL holds no ["@"],
    or nothing stands between it and the next ["@"] or ["/"], the name is
    ["YouTube Channel"]. The name is never empty. *)
Theorem channelName_from_handle (channelUrl : jsstring) :
  channelName channelUrl = spec_channelName channelUrl
  /\ channelName channelUrl <> [].
Proof.
  split; [apply channelName_spec_channelName|].
  rewrite channelName_spec_channelName. unfold spec_channelName.
  destruct (after_first _ channelUrl) as [rest|]; [|discriminate].
  destruct (take_until _ rest); discriminate.
Qed.

(** X2: for a URL of the usual form, some text without ["@"], then ["@"], a
    handle that is not empty and holds neither ["@"] nor ["/"], and then
    nothing or a path that starts with ["/"], the channel name is the
    handle. *)
Theorem channelName_of_handle_url (before handle path : jsstring) :
  ~ In 0x40 before ->
  handle <> [] -> ~ In 0x40 handle -> ~ In 0x2F handle ->
  channelName (before ++ 0x40 :: handle) = handle
  /\ channelName (before ++ 0x40 :: handle ++ 0x2F :: path) = handle.
Proof.
  intros Hbefore Hne Hat Hslash.
  apply not_In_sep in Hbefore.
  assert (Hstop : Forall (fun c => (c =? 0x40) || (c =? 0x2F) = false) handle).
  { apply not_In_sep in Hat, Hslash. rewrite Forall_forall in *.
    intros c Hc. now rewrite (Hat c Hc), (Hslash c Hc). }
  rewrite !channelName_spec_channelName. unfold spec_channelName.
  rewrite !after_first_app by auto.
  rewrite take_until_none by assumption.
  rewrite take_until_app by (auto; reflexivity).
  now destruct handle.
Qed.

(** A channel URL with a path, and one that ends with the handle. *)
Lemma channelName_of_handle_url_witness :
  channelName (str "https://www.youtube.com/@NewsDesk") = str "NewsDesk"
  /\ channelName (str "https://www.youtube.com/@NewsDesk/videos")
     = str "NewsDesk".
Proof.
  apply (channelName_of_handle_url (str "https://www.youtube.com/")
           (str "NewsDesk") (str "videos")).
  - vm_compute. intuition discriminate.
  - discriminate.
  - vm_compute. intuition discriminate.
  - vm_compute. intuition discriminate.
Defined.

(** ** The list of channels *)

Lemma join_truthy sep pieces :
  pieces <> [] -> pieces <> [[]] -> truthy (join sep pieces) = true.
Proof.
  intros Hne Hne'. destruct pieces as [|piece [|next rest]]; try congruence.
  - cbn [join]. destruct piece; [congruence|reflexivity].
  - change (join sep (piece :: next :: rest))
      with (piece ++ sep :: join sep (next :: rest)).
    now destruct piece.
Qed.

Lemma map_trim_fixed urls :
  Forall (fun url => trim url = url) urls -> map trim urls = urls.
Proof. induction 1; cbn; congruence. Qed.

(** X3: a channel list that is written as URLs joined by commas is read back
    as it is: when the URLs hold no comma and no white space at their ends
    (and the list is neither empty nor the empty URL alone), the channels of
    the script are exactly these URLs, in order. *)
Theorem channel_list_round_trip (process_env : ProcessEnv)
  (urls : list jsstring) :
  env_YOUTUBE_CHANNEL_URLS process_env = Some (join 0x2C urls) ->
  urls <> [] -> urls <> [[]] ->
  Forall (fun url => ~ In 0x2C url) urls ->
  Forall (fun url => trim url = url) urls ->
  YOUTUBE_CHANNEL_URLS process_env = urls.
Proof.
  intros Henv Hne Hne' Hcomma Htrim. unfold YOUTUBE_CHANNEL_URLS.
  rewrite Henv, join_truthy by assumption.
  rewrite split_join by assumption. now apply map_trim_fixed.
Qed.

Lemma channel_list_round_trip_witness :
  YOUTUBE_CHANNEL_URLS
    (example_env
       (Some (str "https://www.youtube.com/@first,https://www.youtube.com/@second")))
  = [str "https://www.youtube.com/@first";
     str "https://www.youtube.com/@second"].
Proof.
  apply (channel_list_round_trip
           (example_env
              (Some (str "https://www.youtube.com/@first,https://www.youtube.com/@second")))
           [str "https://www.youtube.com/@first";
            str "https://www.youtube.com/@second"]).
  - vm_compute. reflexivity.
  - discriminate.
  - discriminate.
  - repeat constructor; vm_compute; intuition discriminate.
  - repeat constructor.
Defined.

(** X4: when the variable is set and not empty, there is one channel more
    than there are commas in it, empty entries included, and no channel holds
    a comma. *)
Theorem channel_list_counts_commas (process_env : ProcessEnv)
  (urls : jsstring) :
  env_YOUTUBE_CHANNEL_URLS process_env = Some urls -> urls <> [] ->
  length (YOUTUBE_CHANNEL_URLS process_env)
  = S (count_occ N.eq_dec urls 0x2C)
  /\ Forall (fun url => ~ In 0x2C url) (YOUTUBE_CHANNEL_URLS process_env).
Proof.
  intros Henv Hne. unfold YOUTUBE_CHANNEL_URLS. rewrite Henv.
  apply truthy_true in Hne. rewrite Hne.
  split.
  - now rewrite length_map, length_split.
  - apply Forall_map. eapply Forall_impl; [apply split_pieces|].
    intros piece Hpiece Hin. apply Hpiece. now apply In_trim.
Qed.

Lemma channel_list_counts_commas_witness :
  let env := example_env (Some (str "https://www.youtube.com/@first,,")) in
  length (YOUTUBE_CHANNEL_URLS env) = 3%nat
  /\ Forall (fun url => ~ In 0x2C url) (YOUTUBE_CHANNEL_URLS env).
Proof.
  intros env.
  apply (channel_list_counts_commas env (str "https://www.youtube.com/@first,,")).
  - reflexivity.
  - discriminate.
Defined.

(** X5: entries are not filtered: a variable that ends with a comma
    configures one more channel, whose URL is the empty string. *)
Theorem trailing_comma_adds_empty_channel (process_env : ProcessEnv)
  (urls : jsstring) :
  env_YOUTUBE_CHANNEL_URLS process_env = Some (urls ++ [0x2C]) ->
  YOUTUBE_CHANNEL_URLS process_env = map trim (split 0x2C urls) ++ [[]].
Proof.
  intros Henv. unfold YOUTUBE_CHANNEL_URLS. rewrite Henv.
  replace (truthy (urls ++ [0x2C])) with true by now destruct urls.
  now rewrite split_snoc_sep, map_app.
Qed.

Lemma trailing_comma_adds_empty_channel_witness :
  YOUTUBE_CHANNEL_URLS
    (example_env (Some (str "https://www.youtube.com/@first,")))
  = map trim (split 0x2C (str "https://www.youtube.com/@first")) ++ [[]].
Proof.
  apply (trailing_comma_adds_empty_channel
           (example_env (Some (str "https://www.youtube.com/@first,")))
           (str "https://www.youtube.com/@first")).
  reflexivity.
Defined.

(** ** The shape of a file name *)

(** Settles the comparisons of the goal that arithmetic decides, one after
    the other. *)
Ltac settle_comparisons :=
  repeat
    (match goal with
     | |- context [?a <=? ?b] =>
         first [ rewrite (proj2 (N.leb_le a b)) by lia
               | rewrite (proj2 (N.leb_gt a b)) by lia ]
     | |- context [?a =? ?b] =>
         first [ rewrite (proj2 (N.eqb_eq a b)) by lia
               | rewrite (proj2 (N.eqb_neq a b)) by lia ]
     end; cbn [andb orb negb]).

Lemma sanitize_fileName_unit c : fileName_unit (sanitize c) = true.
Proof.
  unfold fileName_unit, sanitize, ascii_lower, is_letter, is_digit.
  assert (c < 0x30 \/ 0x30 <= c <= 0x39 \/ 0x39 < c < 0x41
          \/ 0x41 <= c <= 0x5A \/ 0x5A < c < 0x61
          \/ 0x61 <= c <= 0x7A \/ 0x7A < c) as Hc by lia.
  repeat destruct Hc as [Hc|Hc]; settle_comparisons; reflexivity.
Qed.

Lemma spec_fileName_sanitize url :
  spec_fileName url = map sanitize url ++ str "_latest_title.txt".
Proof. unfold spec_fileName. now rewrite map_map. Qed.

(** X6: a file name is made of lower-case ASCII letters, digits, underscores
    and the dot of its suffix only: it holds no path separator and no
    upper-case letter, it is seventeen code units longer than the URL, and so
    never empty. *)
Theorem fileName_is_flat (U : Casing) (channelUrl : jsstring) :
  let file := getLatestTitleFileName U channelUrl in
  Forall (fun c => fileName_unit c = true) file
  /\ ~ In 0x2F file /\ ~ In 0x5C file
  /\ length file = (length channelUrl + 17)%nat.
Proof.
  intros file. subst file.
  unfold getLatestTitleFileName, toLowerCase.
  rewrite replace_class_underscore, safeName_ascii.
  fold (spec_fileName channelUrl). rewrite spec_fileName_sanitize.
  assert (Hall : Forall (fun c => fileName_unit c = true)
                   (map sanitize channelUrl ++ str "_latest_title.txt")).
  { apply Forall_app. split.
    - apply Forall_map, Forall_forall. intros c _. apply sanitize_fileName_unit.
    - vm_compute. repeat constructor. }
  split; [exact Hall|].
  rewrite Forall_forall in Hall.
  split; [|split].
  - intros Hin%list_elem_of_In%Hall. discriminate.
  - intros Hin%list_elem_of_In%Hall. discriminate.
  - rewrite length_app, length_map. reflexivity.
Qed.

(** X7: two URLs get the same file name exactly when they are equally long
    and agree position by position once each code unit is sanitized: letters
    up to their case, digits as they are, and every other code unit like any
    other. *)
Theorem fileName_collisions (U : Casing) (url1 url2 : jsstring) :
  getLatestTitleFileName U url1 = getLatestTitleFileName U url2
  <-> Forall2 (fun c1 c2 => sanitize c1 = sanitize c2) url1 url2.
Proof.
  unfold getLatestTitleFileName, toLowerCase.
  rewrite !replace_class_underscore, !safeName_ascii.
  fold (spec_fileName url1) (spec_fileName url2).
  rewrite !spec_fileName_sanitize. split.
  - intros Heq%app_inv_tail. revert url2 Heq.
    induction url1 as [|c1 url1 IH]; intros [|c2 url2] Heq;
      try discriminate; constructor.
    + now injection Heq.
    + apply IH. now injection Heq.
  - intros Hall. f_equal. induction Hall; cbn; congruence.
Qed.

(** ** The fetch *)

(** X8: a fetch asks the browser to close whenever it has started it: once
    when the fetch returns, once or twice when it fails (the handler of the
    navigation and the outer handler may both close). When
    [puppeteer.launch] itself is rejected there is no browser to close, no
    close is requested, and the process restarts. *)
Theorem fetch_closes_browser (host : Host) (url : jsstring) (w : World) :
  let r := getLatestVideo host url w in
  let evs := emitted w (snd r) in
  match host (trace w) puppeteer_launch with
  | Resolve _ => (1 <= closes evs <= 2)%nat
  | Reject _ => closes evs = 0%nat /\ fst r = Exited 1
  end
  /\ (forall found, fst r = Normal found -> closes evs = 1%nat).
Proof.
  intros r evs. subst r evs.
  destruct (getLatestVideo_paths host url w) as [Hlaunch Hpath].
  split; [exact Hlaunch|].
  intros found Hfound. rewrite Hfound in Hpath. tauto.
Qed.

Lemma fetched_title_trim_helper (host : Host) url w w' video :
  getLatestVideo host url w = (Normal (Some video), w') ->
  trim (title video) = title video.
Proof.
  intros Hfetch.
  destruct (getLatestVideo_paths host url w) as [_ Hpath].
  rewrite Hfetch in Hpath. cbn [fst] in Hpath.
  destruct Hpath as (_ & _ & _ & _ & pre & element & _ & ->).
  apply trim_idempotent.
Qed.

(** X9: a video that the fetch returns is the element the page query found:
    its link is the element's [href], and its title is the element's text
    with the white space at both ends removed, so the title has no white
    space at its ends. *)
Theorem fetched_title_is_trimmed (host : Host) (url : jsstring) (w w' : World)
  (video : Video) :
  getLatestVideo host url w = (Normal (Some video), w') ->
  trim (title video) = title video
  /\ exists pre element,
       host pre (page_querySelector video_selector) = Resolve (Some element)
       /\ title video = trim (textContent element)
       /\ link video = href element.
Proof.
  intros Hfetch.
  destruct (getLatestVideo_paths host url w) as [_ Hpath].
  rewrite Hfetch in Hpath. cbn [fst] in Hpath.
  destruct Hpath as (_ & _ & _ & _ & pre & element & Hreply & ->).
  cbn [title link]. split; [apply trim_idempotent|].
  exists pre, element. auto.
Qed.

Lemma fetched_title_is_trimmed_witness :
  let host := example_host (Some example_element) (Resolve tt) in
  trim (title example_video) = title example_video
  /\ exists pre element,
       host pre (page_querySelector video_selector) = Resolve (Some element)
       /\ title example_video = trim (textContent element)
       /\ link example_video = href element.
Proof.
  intros host.
  apply (fetched_title_is_trimmed host example_url empty_world
           (snd (getLatestVideo host example_url empty_world))).
  vm_compute. reflexivity.
Defined.

(** ** One poll step, once more *)

Section StepExtras.
Variable U : Casing.
Variable process_env : ProcessEnv.

(** X10: no notification is repeated. After a step that fetched a video
    with a title that is well formed and not empty, and returned, a later
    step on the same channel that fetches the same title, from any world in
    which the channel's file is as the first step left it, writes nothing and
    posts nothing. *)
Theorem second_poll_is_silent (host host' : Host) (url : jsstring)
  (w w1 w3 w4 : World) (video video' : Video) :
  let file := getLatestTitleFileName U url in
  getLatestVideo host url (checking url w) = (Normal (Some video), w1) ->
  fst (checkForNewVideo U process_env host url w) = Normal tt ->
  title video <> [] ->
  toWellFormed (title video) = title video ->
  files w3 !! file
  = files (snd (checkForNewVideo U process_env host url w)) !! file ->
  getLatestVideo host' url (checking url w3) = (Normal (Some video'), w4) ->
  title video' = title video ->
  let r := checkForNewVideo U process_env host' url w3 in
  fst r = Normal tt
  /\ effects (emitted w3 (snd r)) = []
  /\ files (snd r) = files w3.
Proof.
  intros file Hfetch Hreturned Hne Hwf Hfiles Hfetch' Hsame r.
  pose proof (fetched_title_trim_helper host url _ _ _ Hfetch) as Htrim.
  assert (Hstored : lastTitle (files w3) file = Some (title video)).
  { unfold lastTitle. rewrite Hfiles. fold (lastTitle
      (files (snd (checkForNewVideo U process_env host url w))) file).
    destruct (checkForNewVideo_cases U process_env host url w video w1 Hfetch)
      as [(Hold & _ & Hsame1 & _)
         |[(_ & _ & _ & Hnew & _)|(_ & e & _ & Hthrown & _)]].
    - fold file in Hold. now rewrite Hsame1.
    - fold file in Hnew. rewrite Hnew, lastTitle_insert, Hwf, Htrim.
      apply truthy_true in Hne. now rewrite Hne.
    - congruence. }
  pose proof (checkForNewVideo_effects U process_env host' url w3) as H.
  cbv zeta in H. fold (checking url w3) in H. rewrite Hfetch' in H.
  cbn [fst] in H. fold file r in H. rewrite Hsame in H.
  rewrite bool_decide_eq_true_2 in H by exact Hstored. tauto.
Qed.

(** X11: the first poll of a channel notifies. When the channel's file does
    not exist, a step that fetches a video and can write the file writes the
    title to it and posts the notification, whatever the title is; the file
    then holds the UTF-8 encoding of the title. *)
Theorem first_poll_notifies (host : Host) (url : jsstring) (w w1 : World)
  (video : Video) :
  let file := getLatestTitleFileName U url in
  files w !! file = None ->
  getLatestVideo host url (checking url w) = (Normal (Some video), w1) ->
  fst (writeLastTitle host (title video) file (detecting video w1))
  = Normal tt ->
  let r := checkForNewVideo U process_env host url w in
  fst r = Normal tt
  /\ effects (emitted w (snd r)) = change_effects U process_env (url, video)
  /\ files (snd r) !! file = Some (toWellFormed (title video)).
Proof.
  intros file Hmissing Hfetch Hwrite r.
  pose proof (checkForNewVideo_effects U process_env host url w) as H.
  cbv zeta in H. fold (checking url w) in H. rewrite Hfetch in H.
  cbn [fst snd] in H. fold file r in H.
  rewrite bool_decide_eq_false_2 in H
    by (unfold lastTitle; rewrite Hmissing; discriminate).
  rewrite Hwrite in H.
  destruct H as (Hout & Hfiles & Heff).
  split; [exact Hout|]. split; [exact Heff|].
  rewrite Hfiles. apply lookup_insert_eq.
Qed.

(** X12: white space around the stored title does not matter. When the
    channel's file holds the fetched title with white space before or after
    it, a final newline for one, the step finds no change: it writes nothing
    and posts nothing. *)
Theorem padded_state_file_matches (host : Host) (url : jsstring)
  (w w1 : World) (video : Video) (contents : jsstring) :
  let file := getLatestTitleFileName U url in
  files w !! file = Some contents ->
  trim contents = title video ->
  title video <> [] ->
  getLatestVideo host url (checking url w) = (Normal (Some video), w1) ->
  let r := checkForNewVideo U process_env host url w in
  fst r = Normal tt
  /\ effects (emitted w (snd r)) = []
  /\ files (snd r) = files w.
Proof.
  intros file Hfile Htrim Hne Hfetch r.
  pose proof (checkForNewVideo_effects U process_env host url w) as H.
  cbv zeta in H. fold (checking url w) in H. rewrite Hfetch in H.
  cbn [fst] in H. fold file r in H.
  rewrite bool_decide_eq_true_2 in H; [tauto|].
  unfold lastTitle. rewrite Hfile, Htrim.
  apply truthy_true in Hne. now rewrite Hne.
Qed.

(** X20: a title that is not well formed is notified again and again. When
    a step detects a change to a title with a lone surrogate and writes it,
    the file holds U+FFFD in the place of the surrogate; the title read from
    the file afterwards is not the fetched title, so a later step that
    fetches the same title finds a change once more. *)
Theorem ill_formed_title_renotifies (host : Host) (url : jsstring)
  (w w1 : World) (video : Video) :
  let file := getLatestTitleFileName U url in
  getLatestVideo host url (checking url w) = (Normal (Some video), w1) ->
  fst (readLastTitle file w) <> Normal (Some (title video)) ->
  toWellFormed (title video) <> title video ->
  fst (writeLastTitle host (title video) file (detecting video w1))
  = Normal tt ->
  let r := checkForNewVideo U process_env host url w in
  fst r = Normal tt
  /\ effects (emitted w (snd r)) = change_effects U process_env (url, video)
  /\ files (snd r) !! file = Some (toWellFormed (title video))
  /\ fst (readLastTitle file (snd r)) <> Normal (Some (title video)).
Proof.
  intros file Hfetch Hdiff Hill Hwrite r.
  rewrite readLastTitle_run in Hdiff. cbn [fst] in Hdiff.
  pose proof (checkForNewVideo_effects U process_env host url w) as H.
  cbv zeta in H. fold (checking url w) in H. rewrite Hfetch in H.
  cbn [fst snd] in H. fold file r in H.
  rewrite bool_decide_eq_false_2 in H by congruence.
  rewrite Hwrite in H.
  destruct H as (Hout & Hfiles & Heff).
  split; [exact Hout|]. split; [exact Heff|].
  split; [rewrite Hfiles; apply lookup_insert_eq|].
  rewrite readLastTitle_run, Hfiles, lastTitle_insert. cbn [fst].
  destruct (truthy (trim (toWellFormed (title video)))); [|discriminate].
  intros [= Heq]. apply Hill.
  destruct (trim_shorter (toWellFormed (title video))) as [Hfixed|Hshort].
  - congruence.
  - rewrite Heq, length_toWellFormed in Hshort. lia.
Qed.

End StepExtras.

(** A first step on an empty directory and a second step after it. *)
Lemma second_poll_is_silent_witness :
  let host := example_host (Some example_element) (Resolve tt) in
  let env := example_env (Some example_url) in
  let w3 := snd (checkForNewVideo identity_casing env host example_url
                   empty_world) in
  let r := checkForNewVideo identity_casing env host example_url w3 in
  fst r = Normal tt
  /\ effects (emitted w3 (snd r)) = []
  /\ files (snd r) = files w3.
Proof.
  intros host env w3 r.
  apply (second_poll_is_silent identity_casing env host host example_url
           empty_world
           (snd (getLatestVideo host example_url
                   (checking example_url empty_world)))
           w3
           (snd (getLatestVideo host example_url (checking example_url w3)))
           example_video example_video).
  - vm_compute. reflexivity.
  - vm_compute. reflexivity.
  - discriminate.
  - vm_compute. reflexivity.
  - reflexivity.
  - vm_compute. reflexivity.
  - reflexivity.
Defined.

Lemma first_poll_notifies_witness :
  let host := example_host (Some example_element) (Resolve tt) in
  let env := example_env (Some example_url) in
  let file := getLatestTitleFileName identity_casing example_url in
  let r := checkForNewVideo identity_casing env host example_url empty_world in
  fst r = Normal tt
  /\ effects (emitted empty_world (snd r))
     = change_effects identity_casing env (example_url, example_video)
  /\ files (snd r) !! file = Some (toWellFormed (title example_video)).
Proof.
  intros host env file r.
  apply (first_poll_notifies identity_casing env host example_url empty_world
           (snd (getLatestVideo host example_url
                   (checking example_url empty_world)))
           example_video).
  - vm_compute. reflexivity.
  - vm_compute. reflexivity.
  - vm_compute. reflexivity.
Defined.

(** The file holds the title followed by a newline. *)
Lemma padded_state_file_matches_witness :
  let host := example_host (Some example_element) (Resolve tt) in
  let env := example_env (Some example_url) in
  let w := world_with_title (str "Evening bulletin" ++ [0x0A]) in
  let r := checkForNewVideo identity_casing env host example_url w in
  fst r = Normal tt
  /\ effects (emitted w (snd r)) = []
  /\ files (snd r) = files w.
Proof.
  intros host env w r.
  apply (padded_state_file_matches identity_casing env host example_url w
           (snd (getLatestVideo host example_url (checking example_url w)))
           example_video (str "Evening bulletin" ++ [0x0A])).
  - vm_compute. reflexivity.
  - vm_compute. reflexivity.
  - discriminate.
  - vm_compute. reflexivity.
Defined.

(** A title that ends in a high surrogate without its low surrogate, found
    after the step has run once already. *)
Lemma ill_formed_title_renotifies_witness :
  let host := example_host (Some broken_element) (Resolve tt) in
  let env := example_env (Some example_url) in
  let file := getLatestTitleFileName identity_casing example_url in
  let video := {| title := textContent broken_element;
                  link := href broken_element |} in
  let w := snd (checkForNewVideo identity_casing env host example_url
                  empty_world) in
  let r := checkForNewVideo identity_casing env host example_url w in
  fst r = Normal tt
  /\ effects (emitted w (snd r))
     = change_effects identity_casing env (example_url, video)
  /\ files (snd r) !! file = Some (toWellFormed (title video))
  /\ fst (readLastTitle file (snd r)) <> Normal (Some (title video)).
Proof.
  intros host env file video w r.
  apply (ill_formed_title_renotifies identity_casing env host example_url w
           (snd (getLatestVideo host example_url (checking example_url w)))
           video).
  - vm_compute. reflexivity.
  - vm_compute. discriminate.
  - vm_compute. discriminate.
  - vm_compute. reflexivity.
Defined.

(** ** One cycle *)

Lemma spawned_In evs : spawned evs = true <-> In EvSpawn evs.
Proof.
  unfold spawned. rewrite existsb_exists. split.
  - intros (ev & Hin & Hev). now destruct ev.
  - intros Hin. now exists EvSpawn.
Qed.

Lemma exited_In evs : exited evs = true <-> exists code, In (EvExit code) evs.
Proof.
  unfold exited. rewrite existsb_exists. split.
  - intros (ev & Hin & Hev). destruct ev; try discriminate. eauto.
  - intros (code & Hin). now exists (EvExit code).
Qed.

Lemma apply_changes_lookup U changes fs file :
  Forall (fun change => getLatestTitleFileName U (fst change) <> file) changes ->
  apply_changes U changes fs !! file = fs !! file.
Proof.
  unfold apply_changes. intros Hall. revert fs.
  induction Hall as [|change changes Hne _ IH]; intros fs; [reflexivity|].
  cbn [foldl]. rewrite IH. now apply lookup_insert_ne.
Qed.

Lemma In_change_effects U process_env changes ev :
  In ev (flat_map (change_effects U process_env) changes) ->
  exists url video,
    In (url, video) changes
    /\ (ev = EvWrite (getLatestTitleFileName U url) (title video)
        \/ ev = EvCall (axios_post endpoint
                          (pushoverPayload process_env video url))).
Proof.
  rewrite in_flat_map. intros ([url video] & Hin & Hev).
  exists url, video. split; [exact Hin|].
  destruct Hev as [<-|[<-|[]]]; auto.
Qed.


Section CycleExtras.
Variable U : Casing.
Variable process_env : ProcessEnv.
Variable host : Host.

(** X13: a cycle leaves the process only through [restartScript]: the exit
    code is always 1, a copy of the process was spawned before, and a cycle
    that returns or ends in an exception has spawned nothing. *)
Theorem cycle_exits_only_after_spawn (w : World) :
  let r := checkForAllNewVideos U process_env host w in
  let evs := emitted w (snd r) in
  (In EvSpawn evs <-> fst r = Exited 1)
  /\ ((exists code, In (EvExit code) evs) <-> fst r = Exited 1)
  /\ (forall code, fst r = Exited code -> code = 1%Z).
Proof.
  intros r evs.
  destruct (checkForAllNewVideos_summary U process_env host w)
    as (_ & _ & Hshape & _).
  fold r evs in Hshape. rewrite <- spawned_In, <- exited_In.
  destruct (fst r) as [[]|e|code]; cbn [run_shape] in Hshape.
  - destruct Hshape as [-> ->]. repeat split; discriminate.
  - destruct Hshape as [-> ->]. repeat split; discriminate.
  - destruct Hshape as (-> & -> & ->).
    repeat split; auto. intros code [= <-]. reflexivity.
Qed.

(** X14: a cycle navigates to the configured channels in their order, each
    at most once: the URLs it went to are a prefix of the channel list, and
    the whole list when the cycle returns. *)
Theorem cycle_navigates_in_order (w : World) :
  let r := checkForAllNewVideos U process_env host w in
  let evs := emitted w (snd r) in
  navigations evs `prefix_of` YOUTUBE_CHANNEL_URLS process_env
  /\ (fst r = Normal tt ->
      navigations evs = YOUTUBE_CHANNEL_URLS process_env).
Proof.
  intros r evs.
  destruct (checkForAllNewVideos_summary U process_env host w)
    as (_ & _ & _ & Hprefix & Hall & _).
  auto.
Qed.

(** X15: a cycle touches no file but the files of the configured channels:
    every write goes to the file of a configured channel, and every other
    file is after the cycle as it was before. *)
Theorem cycle_touches_only_channel_files (w : World) :
  let r := checkForAllNewVideos U process_env host w in
  let evs := emitted w (snd r) in
  (forall file contents,
     In (EvWrite file contents) evs ->
     exists url,
       In url (YOUTUBE_CHANNEL_URLS process_env)
       /\ file = getLatestTitleFileName U url)
  /\ (forall file,
        (forall url,
           In url (YOUTUBE_CHANNEL_URLS process_env) ->
           getLatestTitleFileName U url <> file) ->
        files (snd r) !! file = files w !! file).
Proof.
  intros r evs.
  destruct (checkForAllNewVideos_summary U process_env host w)
    as (changes & _ & _ & _ & _ & Heff & Hsub & Hfiles & _).
  fold r evs in Heff, Hfiles.
  assert (Hconfigured : forall url video,
             In (url, video) changes ->
             In url (YOUTUBE_CHANNEL_URLS process_env)).
  { intros url video Hin. apply list_elem_of_In.
    eapply elem_of_sublist; [|exact Hsub].
    apply list_elem_of_In, in_map_iff. now exists (url, video). }
  split.
  - intros file contents Hin.
    assert (Hin' : In (EvWrite file contents) (effects evs))
      by (apply filter_In; auto).
    rewrite Heff in Hin'.
    apply In_change_effects in Hin' as (url & video & Hchange & [[= -> _]|[=]]).
    eauto.
  - intros file Hother. rewrite Hfiles. apply apply_changes_lookup.
    apply Forall_forall. intros [url video] Hin%list_elem_of_In.
    apply Hother. eauto.
Qed.


End CycleExtras.

(** ** Rejections and results *)

Section FetchResults.
Variable host : Host.

Ltac branch_on_reply :=
  match goal with
  | |- context [host ?t ?r] =>
      let reply := fresh "reply" in
      destruct (host t r) as [reply|reply] eqn:?;
      cbn in reply; cbn -[str app]
  | v : option Element |- _ => destruct v; cbn -[str app]
  | b : bool |- _ => destruct b; cbn -[str app]
  end.

Lemma getLatestVideo_returns_without_rejection url w :
  (forall pre r e, host pre r <> Reject e) ->
  exists found, fst (getLatestVideo host url w) = Normal found.
Proof.
  intros Hresolved.
  unfold getLatestVideo, attempt, try_catch, getLatestVideo_catch,
    extract_latest, restartScript, logWithTimestamp, sleep, spawn_self,
    process_exit, emit, call, mbind, Prog_bind, mret, Prog_ret, record.
  cbn -[str app].
  repeat branch_on_reply;
    try (exfalso; eapply Hresolved; eassumption);
    eexists; reflexivity.
Qed.

(** X17: the fetch returns a result exactly when nothing goes wrong. When it
    returns, every request it made was resolved; and when the environment
    rejects no request, it returns, the video or null, and does not
    restart. *)
Theorem fetch_returns_iff_all_resolved (url : jsstring) (w : World) :
  let r := getLatestVideo host url w in
  (forall found,
     fst r = Normal found ->
     all_resolved host (trace w) (emitted w (snd r)))
  /\ ((forall pre request e, host pre request <> Reject e) ->
      exists found,
        fst r = Normal found /\ ~ In EvSpawn (emitted w (snd r))).
Proof.
  intros r. split.
  - intros found Hfound.
    pose proof (getLatestVideo_outcomes host url w) as H. fold r in H.
    destruct r as [o w']. cbn [fst snd] in *. subst o.
    destruct H as (evs & Htrace & Hall).
    now rewrite (emitted_app _ _ _ Htrace).
  - intros Hresolved. subst r.
    destruct (getLatestVideo_returns_without_rejection url w Hresolved)
      as [found Hfound].
    exists found. split; [exact Hfound|].
    destruct (getLatestVideo_paths host url w) as [_ Hpath].
    cbv zeta in Hpath. rewrite Hfound in Hpath.
    destruct Hpath as (_ & _ & Hspawned & _).
    intros Hin%spawned_In. congruence.
Qed.

End FetchResults.

Lemma fetch_returns_iff_all_resolved_witness :
  let host := example_host None (Resolve tt) in
  let r := getLatestVideo host example_url empty_world in
  all_resolved host (trace empty_world) (emitted empty_world (snd r))
  /\ exists found,
       fst r = Normal found /\ ~ In EvSpawn (emitted empty_world (snd r)).
Proof.
  intros host r. split.
  - apply (proj1 (fetch_returns_iff_all_resolved host example_url empty_world)
             None).
    vm_compute. reflexivity.
  - apply (proj2 (fetch_returns_iff_all_resolved host example_url empty_world)).
    intros pre request e. destruct request; discriminate.
Defined.

(** ** Channels that share a file *)

(** X18: channels that share a file undo each other. When two channels have
    the same file name and the step of the first has just fetched a title
    that is well formed and not empty, and returned, the step of the second,
    fetching another title, writes its title over it, if the file can be
    written, and posts a notification, whatever the file held before. *)
Theorem shared_file_renotifies (U : Casing) (process_env : ProcessEnv)
  (host host' : Host) (url1 url2 : jsstring) (w w1 w3 : World)
  (video1 video2 : Video) :
  getLatestTitleFileName U url1 = getLatestTitleFileName U url2 ->
  getLatestVideo host url1 (checking url1 w) = (Normal (Some video1), w1) ->
  fst (checkForNewVideo U process_env host url1 w) = Normal tt ->
  title video1 <> [] ->
  toWellFormed (title video1) = title video1 ->
  let w2 := snd (checkForNewVideo U process_env host url1 w) in
  getLatestVideo host' url2 (checking url2 w2) = (Normal (Some video2), w3) ->
  title video2 <> title video1 ->
  fst (writeLastTitle host' (title video2) (getLatestTitleFileName U url2)
         (detecting video2 w3))
  = Normal tt ->
  let r := checkForNewVideo U process_env host' url2 w2 in
  fst r = Normal tt
  /\ effects (emitted w2 (snd r)) = change_effects U process_env (url2, video2)
  /\ files (snd r) !! getLatestTitleFileName U url1
     = Some (toWellFormed (title video2)).
Proof.
  intros Hshared Hfetch1 Hreturned Hne Hwf w2 Hfetch2 Hdiff Hwrite r.
  pose proof (fetched_title_trim_helper host url1 _ _ _ Hfetch1) as Htrim.
  assert (Hstored : lastTitle (files w2) (getLatestTitleFileName U url2)
                    = Some (title video1)).
  { rewrite <- Hshared. subst w2.
    destruct (checkForNewVideo_cases U process_env host url1 w video1 w1 Hfetch1)
      as [(Hold & _ & Hsame1 & _)
         |[(_ & _ & _ & Hnew & _)|(_ & e & _ & Hthrown & _)]].
    - now rewrite Hsame1.
    - rewrite Hnew, lastTitle_insert, Hwf, Htrim.
      apply truthy_true in Hne. now rewrite Hne.
    - congruence. }
  pose proof (checkForNewVideo_effects U process_env host' url2 w2) as H.
  cbv zeta in H. fold (checking url2 w2) in H. rewrite Hfetch2 in H.
  cbn [fst snd] in H. fold r in H.
  rewrite bool_decide_eq_false_2 in H by (rewrite Hstored; congruence).
  rewrite Hwrite in H.
  destruct H as (Hout & Hfiles & Heff).
  split; [exact Hout|]. split; [exact Heff|].
  rewrite Hfiles, Hshared. apply lookup_insert_eq.
Qed.

Lemma shared_file_renotifies_witness :
  let env := example_env (Some (str "https://www.youtube.com/@NewsDesk,https://www.youtube.com/@newsdesk")) in
  let url1 := str "https://www.youtube.com/@NewsDesk" in
  let url2 := str "https://www.youtube.com/@newsdesk" in
  let host := example_host (Some example_element) (Resolve tt) in
  let host' := example_host (Some other_element) (Resolve tt) in
  let video2 := {| title := str "Morning show"; link := href other_element |} in
  let w2 := snd (checkForNewVideo identity_casing env host url1 empty_world) in
  let r := checkForNewVideo identity_casing env host' url2 w2 in
  fst r = Normal tt
  /\ effects (emitted w2 (snd r))
     = change_effects identity_casing env (url2, video2)
  /\ files (snd r) !! getLatestTitleFileName identity_casing url1
     = Some (toWellFormed (title video2)).
Proof.
  intros env url1 url2 host host' video2 w2 r.
  apply (shared_file_renotifies identity_casing env host host' url1 url2
           empty_world
           (snd (getLatestVideo host url1 (checking url1 empty_world)))
           (snd (getLatestVideo host' url2 (checking url2 w2)))
           example_video video2).
  - vm_compute. reflexivity.
  - vm_compute. reflexivity.
  - vm_compute. reflexivity.
  - discriminate.
  - vm_compute. reflexivity.
  - vm_compute. reflexivity.
  - discriminate.
  - vm_compute. reflexivity.
Defined.

(** ** File names that are too long *)

Lemma fileName_unit_ascii c : fileName_unit c = true -> c < 0x80.
Proof.
  unfold fileName_unit, is_digit.
  rewrite !orb_true_iff, !andb_true_iff, !N.leb_le, !N.eqb_eq. lia.
Qed.

Lemma utf8_length_ascii s :
  Forall (fun c => c < 0x80) s -> utf8_length s = N.of_nat (length s).
Proof.
  induction 1 as [|c s Hc _ IH]; [reflexivity|].
  cbn [utf8_length length]. rewrite (proj2 (N.ltb_lt c 0x80) Hc), IH. lia.
Qed.

(** The file of a channel is a single name of as many bytes as it has code
    units. *)
Lemma name_too_long_fileName U url :
  name_too_long (getLatestTitleFileName U url)
  = (NAME_MAX <? N.of_nat (length url + 17)).
Proof.
  assert (Hshape : Forall (fun c => fileName_unit c = true)
                     (getLatestTitleFileName U url)
                   /\ length (getLatestTitleFileName U url)
                      = (length url + 17)%nat).
  { unfold getLatestTitleFileName, toLowerCase.
    rewrite replace_class_underscore, safeName_ascii.
    fold (spec_fileName url). rewrite spec_fileName_sanitize.
    split; [|rewrite length_app, length_map; reflexivity].
    apply Forall_app. split.
    - apply Forall_map, Forall_forall. intros c _. apply sanitize_fileName_unit.
    - vm_compute. repeat constructor. }
  destruct Hshape as [Hall Hlen].
  unfold name_too_long. rewrite split_no_sep.
  - cbn [existsb]. rewrite orb_false_r, utf8_length_ascii, Hlen; [reflexivity|].
    eapply Forall_impl; [exact Hall|]. apply fileName_unit_ascii.
  - rewrite Forall_forall in Hall.
    intros Hin%list_elem_of_In%Hall. discriminate.
Qed.

(** X19: the file of a channel whose URL has more than 238 code units
    cannot be written: its name, seventeen code units longer, exceeds the
    255 bytes of a file name. Every write to it throws, so a poll step on
    such a channel never writes and never posts, whatever it fetches. *)
Theorem long_url_is_never_written (U : Casing) (process_env : ProcessEnv)
  (host : Host) (url : jsstring) (w : World) :
  let file := getLatestTitleFileName U url in
  let r := checkForNewVideo U process_env host url w in
  (name_too_long file = true <-> (238 < length url)%nat)
  /\ ((238 < length url)%nat ->
      (forall title w',
         writeLastTitle host title file w' = (Throw ENAMETOOLONG, w'))
      /\ effects (emitted w (snd r)) = []
      /\ files (snd r) = files w).
Proof.
  intros file r. subst file r.
  assert (Hlong : name_too_long (getLatestTitleFileName U url) = true
                  <-> (238 < length url)%nat).
  { rewrite name_too_long_fileName. unfold NAME_MAX. rewrite N.ltb_lt. lia. }
  split; [exact Hlong|]. intros Hlen%Hlong.
  assert (Hwrite : forall title w',
             writeLastTitle host title (getLatestTitleFileName U url) w'
             = (Throw ENAMETOOLONG, w')).
  { intros title w'. unfold writeLastTitle, writeFileSync. now rewrite Hlen. }
  split; [exact Hwrite|].
  pose proof (checkForNewVideo_effects U process_env host url w) as H.
  cbv zeta in H.
  destruct (fst (getLatestVideo host url _)) as [[video|]|e|code];
    try tauto.
  case_bool_decide; [tauto|]. rewrite Hwrite in H. cbn [fst] in H. tauto.
Qed.

Lemma long_url_is_never_written_witness :
  let host := example_host (Some example_element) (Resolve tt) in
  let env := example_env (Some long_url) in
  let file := getLatestTitleFileName identity_casing long_url in
  let r := checkForNewVideo identity_casing env host long_url empty_world in
  (forall title w',
     writeLastTitle host title file w' = (Throw ENAMETOOLONG, w'))
  /\ effects (emitted empty_world (snd r)) = []
  /\ files (snd r) = files empty_world.
Proof.
  intros host env file r.
  apply (proj2 (long_url_is_never_written identity_casing env host long_url
                  empty_world)).
  vm_compute. lia.
Defined.
